(** * JSON-RPC calculator: the parser, the dispatcher and the calculator

    A shallow embedding of the Go program (the message model and parser,
    [server.go], the calculator and the two HTTP handlers of [main.go])
    together with the part of Go's
    [encoding/json], [strconv], [unicode/utf8] and [fmt] that the program
    calls.  Go values are modelled as follows:

    - [[]byte] and [string] are [string] (a sequence of 8-bit characters);
    - [float64] is the IEEE 754 binary64 format of [SpecFloat]
      ([prec = 53], [emax = 1024]), with its correctly rounded operations;
    - [int] is [Z];
    - [interface{}] holding what [json.Unmarshal] stores in it is [value];
    - a [json.RawMessage] is the syntax tree of the JSON text it holds (the
      text has been checked by the decoder that filled it in, and decoding
      the text again reads the same tree);
    - the bytes [json.Marshal] writes are likewise the tree of the text,
      each number held as the [int] or [float64] it renders;
    - [log.Printf] appends the formatted line to a log that is threaded
      through the calls. *)

From Stdlib Require Import ZArith NArith List String Ascii Bool.
From Stdlib Require Import SpecFloat DecimalString.
Import ListNotations.

Local Open Scope Z_scope.

(** ** Characters and strings *)

Definition byte_of (c : ascii) : Z := Z.of_N (N_of_ascii c).
Definition chr (n : Z) : ascii := ascii_of_N (Z.to_N n).

Definition dquote : ascii := chr 34.
Definition backslash : ascii := chr 92.

Definition is_digit (c : ascii) : bool := (48 <=? byte_of c) && (byte_of c <=? 57).
Definition digit_val (c : ascii) : Z := byte_of c - 48.

Definition str (l : list ascii) : string := string_of_list_ascii l.
Definition chars (s : string) : list ascii := list_ascii_of_string s.

(** Sample inputs are written with ['] where the JSON text has a double
    quote; [js] puts the double quotes back. *)
Definition js (s : string) : string :=
  str (map (fun c => if Ascii.eqb c "'"%char then dquote else c) (chars s)).

(** ** Results

    A Go function returning [(T, error)] returns a [result]: the value, or
    the error that is not nil. *)

Inductive result (E A : Type) : Type :=
| Ok (a : A)
| Err (e : E).

Arguments Ok {E A} a.
Arguments Err {E A} e.

Definition bind {E A B : Type} (m : result E A) (k : A -> result E B) : result E B :=
  match m with
  | Ok a => k a
  | Err e => Err e
  end.

(** The value of a result, when there is one. *)
Definition result_value {E A : Type} (m : result E A) : option A :=
  match m with
  | Ok a => Some a
  | Err _ => None
  end.

Declare Scope result_scope.
Delimit Scope result_scope with result.
Notation "x <- m ;; k" := (bind m (fun x => k))
  (at level 61, m at next level, right associativity) : result_scope.

(** ** float64 *)

Definition float64 : Type := spec_float.

Module Float64.

Definition prec : Z := 53.
Definition emax : Z := 1024.

Definition zero : float64 := S754_zero false.
Definition add : float64 -> float64 -> float64 := SFadd prec emax.
Definition sub : float64 -> float64 -> float64 := SFsub prec emax.
Definition mul : float64 -> float64 -> float64 := SFmul prec emax.
Definition div : float64 -> float64 -> float64 := SFdiv prec emax.
(** Go's [==] on float64: [-0 == 0] holds, [NaN == NaN] does not. *)
Definition eqb : float64 -> float64 -> bool := SFeqb.

Definition is_finite (f : float64) : bool :=
  match f with
  | S754_zero _ | S754_finite _ _ _ => true
  | S754_infinity _ | S754_nan => false
  end.

(** The float nearest to the integer [n] (ties to even). *)
Definition of_Z (n : Z) : float64 := binary_normalize prec emax n 0 false.

End Float64.

(** ** strconv *)

Module Strconv.

Definition digits_to_Z (ds : list ascii) : Z :=
  fold_left (fun acc c => 10 * acc + digit_val c) ds 0.

Fixpoint span_digits (l : list ascii) : list ascii * list ascii :=
  match l with
  | c :: rest =>
      if is_digit c then let (ds, r) := span_digits rest in (c :: ds, r)
      else ([], l)
  | [] => ([], [])
  end.

(** A number of the JSON grammar,
    an optional [-], then [0] or a digit [1-9] and more digits, then
    optionally [.] and one digit or more, then optionally [e] or [E], an
    optional sign and one digit or more,
    read as [mantissa * 10^exp10] with its sign kept apart (the sign of a
    zero matters). *)
Record decimal := { neg : bool; mantissa : list ascii; exp10 : Z }.

Definition read_exponent (l : list ascii) : option Z :=
  match l with
  | [] => Some 0
  | e :: rest =>
      if Ascii.eqb e "e"%char || Ascii.eqb e "E"%char then
        let '(sg, rest') :=
          match rest with
          | s :: r =>
              if Ascii.eqb s "-"%char then (true, r)
              else if Ascii.eqb s "+"%char then (false, r)
              else (false, rest)
          | [] => (false, rest)
          end in
        match span_digits rest' with
        | ((_ :: _) as ds, []) =>
            Some (if sg then - digits_to_Z ds else digits_to_Z ds)
        | _ => None
        end
      else None
  end.

Definition read_fraction (l : list ascii) : option (list ascii * list ascii) :=
  match l with
  | d :: rest =>
      if Ascii.eqb d "."%char then
        match span_digits rest with
        | ((_ :: _) as fs, rest') => Some (fs, rest')
        | _ => None
        end
      else Some ([], l)
  | [] => Some ([], [])
  end.

Definition read_number (l : list ascii) : option decimal :=
  let '(sg, l1) :=
    match l with
    | c :: r => if Ascii.eqb c "-"%char then (true, r) else (false, l)
    | [] => (false, l)
    end in
  match span_digits l1 with
  | ([], _) => None
  | ((d :: ds) as ip, l2) =>
      if Ascii.eqb d "0"%char && negb (match ds with [] => true | _ => false end)
      then None
      else
        match read_fraction l2 with
        | None => None
        | Some (fs, l3) =>
            match read_exponent l3 with
            | None => None
            | Some e =>
                Some {| neg := sg; mantissa := ip ++ fs;
                        exp10 := e - Z.of_nat (List.length fs) |}
            end
        end
  end.

Fixpoint strip_zeros (l : list ascii) : list ascii :=
  match l with
  | c :: rest => if Ascii.eqb c "0"%char then strip_zeros rest else l
  | [] => []
  end.

(** [m / d] for [0 < m], [0 < d], rounded to the nearest float, ties to
    even: the quotient is computed with two bits more than the format
    holds and the remainder tells on which side of the half the rest
    lies. *)
Definition round_quotient (sg : bool) (m d : Z) : float64 :=
  let s := Z.max 0 (Float64.prec + 2 + Z.log2 d - Z.log2 m) in
  let '(q, r) := Z.div_eucl (Z.shiftl m s) d in
  binary_round_aux Float64.prec Float64.emax sg q (- s) (new_location d r).

(** [strconv.ParseFloat(s, 64)] on a number of the JSON grammar: the
    nearest float64, [None] when that is an infinity ([ErrRange]).  As in
    the library a value with more than 310 integer digits overflows and
    one below [10^-330] is a zero, without computing the power. *)
Definition ParseFloat (s : string) : option float64 :=
  match read_number (chars s) with
  | None => None
  | Some d =>
      let ds := strip_zeros (mantissa d) in
      let m := digits_to_Z ds in
      let dp := Z.of_nat (List.length ds) + exp10 d in
      if m =? 0 then Some (S754_zero (neg d))
      else if 310 <? dp then None
      else if dp <? -330 then Some (S754_zero (neg d))
      else
        let f :=
          if 0 <=? exp10 d
          then binary_normalize Float64.prec Float64.emax
                 ((if neg d then -1 else 1) * (m * 10 ^ exp10 d)) 0 (neg d)
          else round_quotient (neg d) m (10 ^ (- exp10 d)) in
        if Float64.is_finite f then Some f else None
  end.

(** Decimal digits of a non-negative integer. *)
Definition Itoa_nonneg (n : Z) : string :=
  NilEmpty.string_of_uint (N.to_uint (Z.to_N n)).

(** [strconv.Itoa]. *)
Definition Itoa (n : Z) : string :=
  if n <? 0 then String "-" (Itoa_nonneg (- n))
  else if n =? 0 then "0"%string
  else Itoa_nonneg n.

(** [n / d] rounded to the nearest integer, ties to even ([0 <= n],
    [0 < d]). *)
Definition div_round_even (n d : Z) : Z :=
  let '(q, r) := Z.div_eucl n d in
  match 2 * r ?= d with
  | Lt => q
  | Gt => q + 1
  | Eq => if Z.even q then q else q + 1
  end.

Fixpoint zeros (n : nat) : string :=
  match n with O => EmptyString | S k => String "0" (zeros k) end.

(** The digits of [n] with a point before the last six. *)
Definition fixed6 (n : Z) : string :=
  let ip := n / 1000000 in
  let fp := Itoa (n mod 1000000) in
  (Itoa ip ++ "." ++ zeros (6 - String.length fp) ++ fp)%string.

(** The verb [%f] of [fmt]: [strconv.FormatFloat(f, 'f', 6, 64)], the
    exact value rounded to six decimals; [fmt] keeps the sign of an
    infinity. *)
Definition FormatF (f : float64) : string :=
  match f with
  | S754_nan => "NaN"%string
  | S754_infinity s => if s then "-Inf"%string else "+Inf"%string
  | S754_zero s => if s then "-0.000000"%string else "0.000000"%string
  | S754_finite s m e =>
      let scaled :=
        if 0 <=? e then Zpos m * 2 ^ e * 1000000
        else div_round_even (Zpos m * 1000000) (2 ^ (- e)) in
      ((if s then "-" else "") ++ fixed6 scaled)%string
  end.

End Strconv.

(** ** unicode/utf8 and unicode/utf16 *)

Module Utf8.

Definition between (lo hi : Z) (c : ascii) : bool :=
  (lo <=? byte_of c) && (byte_of c <=? hi).

(** The number of bytes of the well-formed encoding that [l] starts
    with, [0] when it starts with none ([utf8.DecodeRune] returning
    [RuneError] with size 1): over-long forms, surrogates and values
    above U+10FFFF are not well formed. *)
Definition rune_size (l : list ascii) : nat :=
  match l with
  | [] => 0%nat
  | c0 :: r =>
      let b0 := byte_of c0 in
      if b0 <? 128 then 1%nat
      else if b0 <? 194 then 0%nat
      else if b0 <? 224 then
        match r with
        | c1 :: _ => if between 128 191 c1 then 2%nat else 0%nat
        | _ => 0%nat
        end
      else if b0 <? 240 then
        let lo := if b0 =? 224 then 160 else 128 in
        let hi := if b0 =? 237 then 159 else 191 in
        match r with
        | c1 :: c2 :: _ =>
            if between lo hi c1 && between 128 191 c2 then 3%nat else 0%nat
        | _ => 0%nat
        end
      else if b0 <? 245 then
        let lo := if b0 =? 240 then 144 else 128 in
        let hi := if b0 =? 244 then 143 else 191 in
        match r with
        | c1 :: c2 :: c3 :: _ =>
            if between lo hi c1 && between 128 191 c2 && between 128 191 c3
            then 4%nat else 0%nat
        | _ => 0%nat
        end
      else 0%nat
  end.

(** U+FFFD, [unicode.ReplacementChar], encoded. *)
Definition RuneError : list ascii := [chr 239; chr 191; chr 189].

Definition is_surrogate (r : Z) : bool := (55296 <=? r) && (r <? 57344).

(** [utf8.EncodeRune]. *)
Definition EncodeRune (r : Z) : list ascii :=
  if r <? 0 then RuneError
  else if r <? 128 then [chr r]
  else if r <? 2048 then [chr (192 + r / 64); chr (128 + r mod 64)]
  else if is_surrogate r then RuneError
  else if r <? 65536 then
    [chr (224 + r / 4096); chr (128 + (r / 64) mod 64); chr (128 + r mod 64)]
  else if r <=? 1114111 then
    [chr (240 + r / 262144); chr (128 + (r / 4096) mod 64);
     chr (128 + (r / 64) mod 64); chr (128 + r mod 64)]
  else RuneError.

(** [utf16.DecodeRune]: the code point of a surrogate pair, [None] when
    the two do not form one. *)
Definition DecodeSurrogates (r1 r2 : Z) : option Z :=
  if (55296 <=? r1) && (r1 <? 56320) && (56320 <=? r2) && (r2 <? 57344)
  then Some ((r1 - 55296) * 1024 + (r2 - 56320) + 65536)
  else None.

End Utf8.

(** ** encoding/json: reading a JSON text *)

Module Json.

(** A number of a JSON text: the literal of a text that is read (it is
    converted when it is stored into a Go value, which can fail), or the
    [int] or [float64] that [Marshal] renders. *)
Inductive number :=
| Literal (lit : string)
| Int (z : Z)
| Float (f : float64).

(** The tree of a JSON text.  A string is held unquoted. *)
#[warnings="-register-all"]
Inductive json : Type :=
| JNull
| JBool (b : bool)
| JNumber (n : number)
| JString (s : string)
| JArray (elems : list json)
| JObject (members : list (string * json)).

(** *** Strings *)

Definition hex_val (c : ascii) : option Z :=
  let b := byte_of c in
  if (48 <=? b) && (b <=? 57) then Some (b - 48)
  else if (97 <=? b) && (b <=? 102) then Some (b - 87)
  else if (65 <=? b) && (b <=? 70) then Some (b - 55)
  else None.

(** The four hexadecimal digits [l] starts with, as a number. *)
Definition hex4 (l : list ascii) : option Z :=
  match l with
  | h1 :: h2 :: h3 :: h4 :: _ =>
      match hex_val h1, hex_val h2, hex_val h3, hex_val h4 with
      | Some a, Some b, Some c, Some d => Some (((a * 16 + b) * 16 + c) * 16 + d)
      | _, _, _, _ => None
      end
  | _ => None
  end.

(** [getu4]: the value of the [\uXXXX] that [l] starts with. *)
Definition getu4 (l : list ascii) : option Z :=
  match l with
  | b :: u :: r =>
      if Ascii.eqb b backslash && Ascii.eqb u "u"%char then hex4 r else None
  | _ => None
  end.

(** What the escape sequence whose backslash has just been read stands
    for, and how many characters it takes after the backslash.  The
    escapes are those the scanner accepts.  A [\u] escape of a
    surrogate is read with the [\u] escape that follows it when the two
    form a pair, and is U+FFFD otherwise. *)
Definition escape (r : list ascii) : option (list ascii * nat) :=
  match r with
  | [] => None
  | e :: r' =>
      let b := byte_of e in
      if (b =? 34) || (b =? 92) || (b =? 47) then Some ([e], 1%nat)
      else if b =? 98 then Some ([chr 8], 1%nat)
      else if b =? 102 then Some ([chr 12], 1%nat)
      else if b =? 110 then Some ([chr 10], 1%nat)
      else if b =? 114 then Some ([chr 13], 1%nat)
      else if b =? 116 then Some ([chr 9], 1%nat)
      else if b =? 117 then
        match hex4 r' with
        | None => None
        | Some rr =>
            if Utf8.is_surrogate rr then
              match getu4 (skipn 4 r') with
              | Some rr1 =>
                  match Utf8.DecodeSurrogates rr rr1 with
                  | Some dec => Some (Utf8.EncodeRune dec, 11%nat)
                  | None => Some (Utf8.RuneError, 5%nat)
                  end
              | None => Some (Utf8.RuneError, 5%nat)
              end
            else Some (Utf8.EncodeRune rr, 5%nat)
        end
      else None
  end.

(** What the loop of [unquote] does with the characters to come: [Copy
    k] copies the next [k] (the rest of a well-formed rune), [Drop k]
    drops them (the rest of an escape); [Copy 0] reads on. *)
Inductive pending := Copy (k : nat) | Drop (k : nat).

(** [unquoteBytes] on the characters between the quotes: escapes are
    replaced, and every byte that is not part of well-formed UTF-8 is
    replaced by U+FFFD.  [None] on a character a string cannot hold. *)
Fixpoint unquote_from (p : pending) (l : list ascii) : option (list ascii) :=
  match l with
  | [] => Some []
  | c :: r =>
      match p with
      | Drop (S k) => unquote_from (Drop k) r
      | Copy (S k) => option_map (cons c) (unquote_from (Copy k) r)
      | _ =>
          if Ascii.eqb c backslash then
            match escape r with
            | None => None
            | Some (out, n) => option_map (app out) (unquote_from (Drop n) r)
            end
          else if Ascii.eqb c dquote || (byte_of c <? 32) then None
          else if byte_of c <? 128 then
            option_map (cons c) (unquote_from (Copy 0) r)
          else
            match Utf8.rune_size l with
            | O => option_map (app Utf8.RuneError) (unquote_from (Copy 0) r)
            | S k => option_map (cons c) (unquote_from (Copy k) r)
            end
      end
  end.

Definition unquote (raw : list ascii) : option string :=
  option_map str (unquote_from (Copy 0) raw).

(** *** Tokens *)

Inductive token :=
| TLBrace | TRBrace | TLBracket | TRBracket | TColon | TComma
| TString (s : string)
| TNumber (lit : string)
| TTrue | TFalse | TNull.

(** Where the scanner is: between tokens, inside a string (the
    characters read so far, last first, and whether the last one was an
    unescaped backslash), inside a number, or inside one of the words
    [true], [false], [null] (the characters still to come). *)
Inductive lex_mode :=
| LBetween
| LString (racc : list ascii) (esc : bool)
| LNumber (racc : list ascii)
| LWord (rest : list ascii) (t : token).

Definition is_space (c : ascii) : bool :=
  let b := byte_of c in (b =? 32) || (b =? 9) || (b =? 13) || (b =? 10).

Definition is_number_char (c : ascii) : bool :=
  let b := byte_of c in
  is_digit c || (b =? 45) || (b =? 43) || (b =? 46) || (b =? 101) || (b =? 69).

Definition number_token (racc : list ascii) : option token :=
  match Strconv.read_number (rev racc) with
  | Some _ => Some (TNumber (str (rev racc)))
  | None => None
  end.

(** The step between tokens. *)
Definition lex_between (c : ascii) : option (lex_mode * list token) :=
  let b := byte_of c in
  if is_space c then Some (LBetween, [])
  else if b =? 123 then Some (LBetween, [TLBrace])
  else if b =? 125 then Some (LBetween, [TRBrace])
  else if b =? 91 then Some (LBetween, [TLBracket])
  else if b =? 93 then Some (LBetween, [TRBracket])
  else if b =? 58 then Some (LBetween, [TColon])
  else if b =? 44 then Some (LBetween, [TComma])
  else if b =? 34 then Some (LString [] false, [])
  else if (b =? 45) || is_digit c then Some (LNumber [c], [])
  else if b =? 116 then Some (LWord (chars "rue") TTrue, [])
  else if b =? 102 then Some (LWord (chars "alse") TFalse, [])
  else if b =? 110 then Some (LWord (chars "ull") TNull, [])
  else None.

Definition lex_step (m : lex_mode) (c : ascii) : option (lex_mode * list token) :=
  match m with
  | LBetween => lex_between c
  | LString racc true => Some (LString (c :: racc) false, [])
  | LString racc false =>
      if Ascii.eqb c dquote then
        match unquote (rev racc) with
        | Some s => Some (LBetween, [TString s])
        | None => None
        end
      else Some (LString (c :: racc) (Ascii.eqb c backslash), [])
  | LNumber racc =>
      if is_number_char c then Some (LNumber (c :: racc), [])
      else
        match number_token racc, lex_between c with
        | Some t, Some (m', ts) => Some (m', t :: ts)
        | _, _ => None
        end
  | LWord rest t =>
      match rest with
      | x :: rest' =>
          if Ascii.eqb c x then
            match rest' with
            | [] => Some (LBetween, [t])
            | _ => Some (LWord rest' t, [])
            end
          else None
      | [] => None
      end
  end.

Definition lex_end (m : lex_mode) : option (list token) :=
  match m with
  | LBetween => Some []
  | LNumber racc => option_map (fun t => [t]) (number_token racc)
  | LString _ _ | LWord _ _ => None
  end.

Fixpoint lex (m : lex_mode) (s : string) : option (list token) :=
  match s with
  | EmptyString => lex_end m
  | String c rest =>
      match lex_step m c with
      | Some (m', ts) => option_map (app ts) (lex m' rest)
      | None => None
      end
  end.

(** *** Values *)

(** A container that has been opened and waits for its next element:
    the elements read so far, last first, and for an object the key of
    the member being read. *)
Inductive frame :=
| FArray (racc : list json)
| FObject (racc : list (string * json)) (key : string).

(** What may come next. *)
Inductive expect :=
| EValue                       (* a value *)
| EValueOrClose                (* just after [: a value or ] *)
| EKey (racc : list (string * json)) (first : bool)
                               (* a key; just after the brace also the closing brace *)
| EColon (racc : list (string * json)) (key : string)
| EAfter (v : json).           (* a value has been read *)

(** The scanner refuses more than 10000 open containers. *)
Definition maxNestingDepth : Z := 10000.

Definition start_value (st : list frame) (t : token)
  : option (list frame * expect) :=
  match t with
  | TNull => Some (st, EAfter JNull)
  | TTrue => Some (st, EAfter (JBool true))
  | TFalse => Some (st, EAfter (JBool false))
  | TNumber lit => Some (st, EAfter (JNumber (Literal lit)))
  | TString s => Some (st, EAfter (JString s))
  | TLBracket =>
      if Z.of_nat (List.length st) <? maxNestingDepth
      then Some (FArray [] :: st, EValueOrClose) else None
  | TLBrace =>
      if Z.of_nat (List.length st) <? maxNestingDepth
      then Some (st, EKey [] true) else None
  | _ => None
  end.

Definition parse_step (st : list frame) (e : expect) (t : token)
  : option (list frame * expect) :=
  match e with
  | EValue => start_value st t
  | EValueOrClose =>
      match t, st with
      | TRBracket, FArray _ :: st' => Some (st', EAfter (JArray []))
      | _, _ => start_value st t
      end
  | EKey racc first =>
      match t with
      | TString k => Some (st, EColon racc k)
      | TRBrace => if first then Some (st, EAfter (JObject [])) else None
      | _ => None
      end
  | EColon racc k =>
      match t with
      | TColon => Some (FObject racc k :: st, EValue)
      | _ => None
      end
  | EAfter v =>
      match st, t with
      | FArray racc :: st', TComma => Some (FArray (v :: racc) :: st', EValue)
      | FArray racc :: st', TRBracket => Some (st', EAfter (JArray (rev (v :: racc))))
      | FObject racc k :: st', TComma => Some (st', EKey ((k, v) :: racc) false)
      | FObject racc k :: st', TRBrace =>
          Some (st', EAfter (JObject (rev ((k, v) :: racc))))
      | _, _ => None
      end
  end.

Fixpoint parse_tokens (st : list frame) (e : expect) (ts : list token)
  : option json :=
  match ts with
  | [] => match st, e with [], EAfter v => Some v | _, _ => None end
  | t :: ts' =>
      match parse_step st e t with
      | Some (st', e') => parse_tokens st' e' ts'
      | None => None
      end
  end.

(** The tree of a JSON text: one value, white space around it allowed.
    [None] is a syntax error ([checkValid] failing). *)
Definition parse (data : string) : option json :=
  match lex LBetween data with
  | Some ts => parse_tokens [] EValue ts
  | None => None
  end.

(** *** Go values

    What [Unmarshal] stores into an [interface{}]: [nil], a [bool], a
    [float64], a [string], a [[]interface{}] or a
    [map[string]interface{}].  A map is held as the list of its entries
    in the order of their keys (compared byte by byte), each key once:
    the order in which [Marshal] writes them. *)
#[warnings="-register-all"]
Inductive value : Type :=
| VNil
| VBool (b : bool)
| VFloat (f : float64)
| VString (s : string)
| VSlice (elems : list value)
| VMap (entries : list (string * value)).

(** [m[k] = v]. *)
Fixpoint map_set (k : string) (v : value) (m : list (string * value))
  : list (string * value) :=
  match m with
  | [] => [(k, v)]
  | (k', v') :: rest =>
      match String.compare k k' with
      | Lt => (k, v) :: m
      | Eq => (k, v) :: rest
      | Gt => (k', v') :: map_set k v rest
      end
  end.

(** The errors of the package.  [Error] is the message of one; the
    library's wording is longer (it names the offending character and
    its offset, or the Go type), and the program only copies it. *)
Inductive error :=
| SyntaxError
| UnmarshalTypeError (what : string)
| UnsupportedValueError (what : string).

Definition Error (e : error) : string :=
  match e with
  | SyntaxError => "invalid JSON text"
  | UnmarshalTypeError what => "json: cannot unmarshal " ++ what ++ " into Go value"
  | UnsupportedValueError what => "json: unsupported value: " ++ what
  end%string.

(** How [UnmarshalTypeError] names a JSON value. *)
Definition describe (j : json) : string :=
  match j with
  | JNull => "null"
  | JBool _ => "bool"
  | JNumber _ => "number"
  | JString _ => "string"
  | JArray _ => "array"
  | JObject _ => "object"
  end%string.

(** The float of a number: [strconv.ParseFloat] of a literal, which
    fails on a number out of range. *)
Definition float_of_number (n : number) : option float64 :=
  match n with
  | Literal lit => Strconv.ParseFloat lit
  | Int z => Some (Float64.of_Z z)
  | Float f => Some f
  end.

Local Open Scope result_scope.

Definition store_number (n : number) : result error float64 :=
  match float_of_number n with
  | Some f => Ok f
  | None => Err (UnmarshalTypeError "number out of range")
  end.

(** Storing a JSON value into an [interface{}]. *)
Fixpoint to_value (j : json) : result error value :=
  match j with
  | JNull => Ok VNil
  | JBool b => Ok (VBool b)
  | JNumber n => f <- store_number n;; Ok (VFloat f)
  | JString s => Ok (VString s)
  | JArray elems =>
      vs <- (fix all (l : list json) : result error (list value) :=
                  match l with
                  | [] => Ok []
                  | x :: r => v <- to_value x;; vs <- all r;; Ok (v :: vs)
                  end) elems;;
      Ok (VSlice vs)
  | JObject members =>
      m <- (fix all (l : list (string * json)) (acc : list (string * value))
                 : result error (list (string * value)) :=
                 match l with
                 | [] => Ok acc
                 | (k, x) :: r => v <- to_value x;; all r (map_set k v acc)
                 end) members [];;
      Ok (VMap m)
  end.

(** Storing into a field of type [string]: [null] leaves the field as
    it is, anything but a string is a type error. *)
Definition store_string (j : json) (old : string) : result error string :=
  match j with
  | JString s => Ok s
  | JNull => Ok old
  | _ => Err (UnmarshalTypeError (describe j))
  end.

(** Storing into a field of type [float64]. *)
Definition store_float64 (j : json) (old : float64) : result error float64 :=
  match j with
  | JNumber n => store_number n
  | JNull => Ok old
  | _ => Err (UnmarshalTypeError (describe j))
  end.

(** *** Field names *)

Fixpoint starts_with (p : list Z) (l : list ascii) : bool :=
  match p, l with
  | [], _ => true
  | b :: p', c :: l' => (byte_of c =? b) && starts_with p' l'
  | _ :: _, [] => false
  end.

(** [foldName]: the name with which a key is compared when no field
    has exactly its name.  Letters [a-z] become [A-Z]; U+017F (long s)
    becomes [S] and U+212A (the Kelvin sign) becomes [K], the only runes
    outside ASCII that fold to a letter of ASCII.  (Every other rune
    folds to a rune outside ASCII; it is left as it is here, which
    compares the same against the names of fields, all ASCII.) *)
Fixpoint foldName_from (skip : nat) (l : list ascii) : list ascii :=
  match l with
  | [] => []
  | c :: r =>
      match skip with
      | S k => foldName_from k r
      | O =>
          let b := byte_of c in
          if (97 <=? b) && (b <=? 122) then chr (b - 32) :: foldName_from 0 r
          else if starts_with [197; 191] l then "S"%char :: foldName_from 1 r
          else if starts_with [226; 132; 170] l then "K"%char :: foldName_from 2 r
          else c :: foldName_from 0 r
      end
  end.

Definition foldName (s : string) : string := str (foldName_from 0 (chars s)).

(** The field a key of an object is stored into: the one of that exact
    name, else the first one with the same folded name. *)
Definition find_field (fields : list string) (key : string) : option string :=
  match find (String.eqb key) fields with
  | Some f => Some f
  | None => find (fun f => String.eqb (foldName key) (foldName f)) fields
  end.

Section Struct.

Context {S : Type}.
(** The names of the fields, and storing a value into the field of a
    name. *)
Variable fields : list string.
Variable store : string -> json -> S -> result error S.

Fixpoint decode_members (ms : list (string * json)) (s : S) : result error S :=
  match ms with
  | [] => Ok s
  | (k, v) :: rest =>
      match find_field fields k with
      | Some f => bind (store f v s) (decode_members rest)
      | None => decode_members rest s
      end
  end.

(** Storing a JSON value into a struct: the members of an object are
    stored one after the other, so that of two members for one field
    the later one is kept, and a member for no field is skipped;
    [null] leaves the struct as it is; anything else is a type
    error. *)
Definition decode_struct (j : json) (s : S) : result error S :=
  match j with
  | JObject ms => decode_members ms s
  | JNull => Ok s
  | _ => Err (UnmarshalTypeError (describe j))
  end.

End Struct.

(** *** Writing *)

(** [Marshal] of what an [interface{}] holds.  A float that is not
    finite cannot be written.  A string is written as it is and the
    entries of a map in the order of the list.  That is what [Marshal]
    does for a string of valid UTF-8 and a map held in the order of its
    keys, as are the values the program hands to it: those that
    [to_value] has built (the decoder replaces invalid UTF-8 by U+FFFD
    and [map_set] keeps the keys in order) and its own constants.  For a
    string that is not valid UTF-8 [Marshal] would write U+FFFD in place
    of each invalid byte, and for a map out of order it would sort. *)
Fixpoint Marshal_value (v : value) : result error json :=
  match v with
  | VNil => Ok JNull
  | VBool b => Ok (JBool b)
  | VFloat f =>
      if Float64.is_finite f then Ok (JNumber (Float f))
      else Err (UnsupportedValueError (Strconv.FormatF f))
  | VString s => Ok (JString s)
  | VSlice elems =>
      ds <- (fix all (l : list value) : result error (list json) :=
                  match l with
                  | [] => Ok []
                  | x :: r => d <- Marshal_value x;; ds <- all r;; Ok (d :: ds)
                  end) elems;;
      Ok (JArray ds)
  | VMap entries =>
      ms <- (fix all (l : list (string * value)) : result error (list (string * json)) :=
                  match l with
                  | [] => Ok []
                  | (k, x) :: r => d <- Marshal_value x;; ms <- all r;; Ok ((k, d) :: ms)
                  end) entries;;
      Ok (JObject ms)
  end.

(** A field of type [interface{}] tagged [omitempty]: it is left out
    when it is [nil]. *)
Definition Marshal_interface_omitempty (name : string) (v : value)
  : result error (list (string * json)) :=
  match v with
  | VNil => Ok []
  | _ => d <- Marshal_value v;; Ok [(name, d)]
  end.

(** *** Unmarshal *)

(** A [json.RawMessage] holds a JSON text that the decoder has read:
    it is held as the tree of that text. *)
Definition RawMessage : Type := json.

(** The bytes handed to [Unmarshal]: a text that has not been read yet,
    or a [RawMessage]. *)
Inductive bytes :=
| Text (s : string)
| Raw (m : RawMessage).

Definition read (data : bytes) : result error json :=
  match data with
  | Text s =>
      match parse s with
      | Some j => Ok j
      | None => Err SyntaxError
      end
  | Raw m => Ok m
  end.

(** [Unmarshal(data, &x)], [store] storing a value into what [x] is
    ([zero] before the call). *)
Definition Unmarshal {T : Type} (store : json -> T -> result error T)
  (data : bytes) (zero : T) : result error T :=
  j <- read data;; store j zero.

(** Into an [interface{}]. *)
Definition Unmarshal_interface (data : bytes) : result error value :=
  Unmarshal (fun j _ => to_value j) data VNil.

(** Into a [[]json.RawMessage]. *)
Definition store_raw_slice (j : json) (old : list RawMessage)
  : result error (list RawMessage) :=
  match j with
  | JArray elems => Ok elems
  | JNull => Ok []
  | _ => Err (UnmarshalTypeError (describe j))
  end.

End Json.

(** ** The log *)

(** [log.Printf] writes a line; a function that logs returns its value
    together with the lines it wrote, in order. *)
Definition logged (A : Type) : Type := A * list string.

Definition ret {A : Type} (a : A) : logged A := (a, []).

Definition seq {A B : Type} (m : logged A) (k : A -> logged B) : logged B :=
  let (a, l1) := m in let (b, l2) := k a in (b, l1 ++ l2).

Definition Printf (line : string) : logged unit := (tt, [line]).

Declare Scope logged_scope.
Delimit Scope logged_scope with logged.
Notation "x <~ m ;; k" := (seq m (fun x => k))
  (at level 61, m at next level, right associativity) : logged_scope.
Notation "m ;;; k" := (seq m (fun _ => k))
  (at level 61, right associativity) : logged_scope.

Import Json.

(** ** The message model and the parser *)

Definition JSONRPCVersion : string := "2.0".

Record JSONRPCRequest := {
  Request_JSONRPC : string;
  Request_Method : string;
  Request_Params : value;
  Request_ID : value
}.

Record JSONRPCNotification := {
  Notification_JSONRPC : string;
  Notification_Method : string;
  Notification_Params : value
}.

Record JSONRPCError := {
  Code : Z;
  Message : string;
  Data : value
}.

(** [Result] has the tag [omitempty] and [Error] is a pointer with the
    same tag: a [nil] in either is a member that is not written. *)
Record JSONRPCResponse := {
  Response_JSONRPC : string;
  Result : value;
  Error : option JSONRPCError;
  Response_ID : value
}.

(** The method [Error] of [JSONRPCError]. *)
Definition JSONRPCError_Error (e : JSONRPCError) : string :=
  ("JSON-RPC Error " ++ Strconv.Itoa (Code e) ++ ": " ++ Message e)%string.

(** A Go [error] that is not nil: a [*JSONRPCError], or an error of
    another type with its message. *)
Inductive error :=
| RPCError (e : JSONRPCError)
| OtherError (msg : string).

Definition error_Error (e : error) : string :=
  match e with
  | RPCError e => JSONRPCError_Error e
  | OtherError msg => msg
  end.

Definition ParseError : Z := -32700.
Definition InvalidRequest : Z := -32600.
Definition MethodNotFound : Z := -32601.
Definition InvalidParams : Z := -32602.
Definition InternalError : Z := -32603.

(** What [ParseMessage] returns in its [interface{}]: a request, a
    notification or a slice of such. *)
#[warnings="-register-all"]
Inductive message :=
| Request (r : JSONRPCRequest)
| Notification (n : JSONRPCNotification)
| Batch (ms : list message).

(** The struct [raw] of [ParseSingleMessage].  [Params] is a
    [json.RawMessage], [nil] until a member is stored; [ID] is a pointer
    to one. *)
Record rawMessage := {
  raw_JSONRPC : string;
  raw_Method : string;
  raw_Params : option RawMessage;
  raw_ID : option RawMessage
}.

Definition raw_zero : rawMessage :=
  {| raw_JSONRPC := ""; raw_Method := ""; raw_Params := None; raw_ID := None |}.

Definition raw_fields : list string := ["jsonrpc"; "method"; "params"; "id"]%string.

Local Open Scope result_scope.

(** Storing a member into [raw].  A [json.RawMessage] takes any value,
    [null] included.  A pointer is different: storing [null] into a
    pointer sets it to [nil] (the package documents: to unmarshal JSON
    into a pointer, Unmarshal first handles the case of the JSON being the
    JSON literal null; in that case, Unmarshal sets the pointer to nil),
    and anything else is stored into a new [RawMessage] it points to. *)
Definition raw_store (field : string) (j : json) (r : rawMessage)
  : result Json.error rawMessage :=
  if String.eqb field "jsonrpc" then
    s <- store_string j (raw_JSONRPC r);;
    Ok {| raw_JSONRPC := s; raw_Method := raw_Method r;
          raw_Params := raw_Params r; raw_ID := raw_ID r |}
  else if String.eqb field "method" then
    s <- store_string j (raw_Method r);;
    Ok {| raw_JSONRPC := raw_JSONRPC r; raw_Method := s;
          raw_Params := raw_Params r; raw_ID := raw_ID r |}
  else if String.eqb field "params" then
    Ok {| raw_JSONRPC := raw_JSONRPC r; raw_Method := raw_Method r;
          raw_Params := Some j; raw_ID := raw_ID r |}
  else
    Ok {| raw_JSONRPC := raw_JSONRPC r; raw_Method := raw_Method r;
          raw_Params := raw_Params r;
          raw_ID := match j with JNull => None | _ => Some j end |}.

Definition invalid_request (data : string) : JSONRPCError :=
  {| Code := InvalidRequest; Message := "Invalid Request"; Data := VString data |}.

Definition parse_error (err : Json.error) : JSONRPCError :=
  {| Code := ParseError; Message := "Parse error"; Data := VString (Json.Error err) |}.

(** [ParseSingleMessage] (lines 164-236 of the message model). *)
Definition ParseSingleMessage (data : bytes) : result JSONRPCError message :=
  match Unmarshal (decode_struct raw_fields raw_store) data raw_zero with
  | Err err => Err (parse_error err)
  | Ok raw =>
      if negb (String.eqb (raw_JSONRPC raw) JSONRPCVersion) then
        Err (invalid_request "jsonrpc field must be '2.0'")
      else if String.eqb (raw_Method raw) "" then
        Err (invalid_request "method field is required")
      else
        match
          match raw_Params raw with
          | Some p => Unmarshal_interface (Raw p)
          | None => Ok VNil
          end
        with
        | Err _ => Err (invalid_request "Invalid params field")
        | Ok params =>
            match raw_ID raw with
            | Some id_raw =>
                match Unmarshal_interface (Raw id_raw) with
                | Err _ => Err (invalid_request "Invalid ID field")
                | Ok id =>
                    Ok (Request {| Request_JSONRPC := raw_JSONRPC raw;
                                   Request_Method := raw_Method raw;
                                   Request_Params := params;
                                   Request_ID := id |})
                end
            | None =>
                Ok (Notification {| Notification_JSONRPC := raw_JSONRPC raw;
                                    Notification_Method := raw_Method raw;
                                    Notification_Params := params |})
            end
        end
  end.

(** The loop of [ParseMessage] over the elements of a batch: the first
    element that fails ends it with that error. *)
Fixpoint parse_batch (batch : list RawMessage) (messages : list message)
  : result JSONRPCError (list message) :=
  match batch with
  | [] => Ok messages
  | raw :: rest =>
      match ParseSingleMessage (Raw raw) with
      | Err err => Err err
      | Ok msg => parse_batch rest (messages ++ [msg])
      end
  end.

(** [ParseMessage] (lines 136-161): the input is taken for a batch
    when its first byte is an opening bracket. *)
Definition ParseMessage (data : string) : result JSONRPCError message :=
  match data with
  | String c _ =>
      if Ascii.eqb c "["%char then
        match Unmarshal store_raw_slice (Text data) [] with
        | Err err => Err (parse_error err)
        | Ok batch =>
            messages <- parse_batch batch [];;
            Ok (Batch messages)
        end
      else ParseSingleMessage (Text data)
  | EmptyString => ParseSingleMessage (Text data)
  end.

Definition CreateSuccessResponse (result : value) (id : value) : JSONRPCResponse :=
  {| Response_JSONRPC := JSONRPCVersion; Result := result; Error := None;
     Response_ID := id |}.

Definition CreateErrorResponse (err : JSONRPCError) (id : value) : JSONRPCResponse :=
  {| Response_JSONRPC := JSONRPCVersion; Result := VNil; Error := Some err;
     Response_ID := id |}.

(** ** The calculator *)

Record CalculatorParams := {
  CalculatorParams_A : float64;
  CalculatorParams_B : float64
}.

Record LogParams := {
  LogParams_Message : string
}.

Local Open Scope logged_scope.

Module Calculator.

Import Strconv.

Definition Add (params : CalculatorParams) : logged (result error float64) :=
  let a := CalculatorParams_A params in
  let b := CalculatorParams_B params in
  let result := Float64.add a b in
  Printf ("Calculator: " ++ FormatF a ++ " + " ++ FormatF b ++ " = " ++ FormatF result);;;
  ret (Ok result).

Definition Subtract (params : CalculatorParams) : logged (result error float64) :=
  let a := CalculatorParams_A params in
  let b := CalculatorParams_B params in
  let result := Float64.sub a b in
  Printf ("Calculator: " ++ FormatF a ++ " - " ++ FormatF b ++ " = " ++ FormatF result);;;
  ret (Ok result).

Definition Multiply (params : CalculatorParams) : logged (result error float64) :=
  let a := CalculatorParams_A params in
  let b := CalculatorParams_B params in
  let result := Float64.mul a b in
  Printf ("Calculator: " ++ FormatF a ++ " * " ++ FormatF b ++ " = " ++ FormatF result);;;
  ret (Ok result).

Definition Divide (params : CalculatorParams) : logged (result error float64) :=
  let a := CalculatorParams_A params in
  let b := CalculatorParams_B params in
  if Float64.eqb b Float64.zero then
    ret (Err (RPCError {| Code := -32000;
                          Message := "Division by zero";
                          Data := VString ("Cannot divide " ++ FormatF a ++ " by zero") |}))
  else
    let result := Float64.div a b in
    Printf ("Calculator: " ++ FormatF a ++ " / " ++ FormatF b ++ " = " ++ FormatF result);;;
    ret (Ok result).

Definition Log (params : LogParams) : logged unit :=
  Printf ("Calculator Log: " ++ LogParams_Message params).

(** The map is held in the order of its keys; [methods] is a
    [[]string], written as an array of strings. *)
Definition GetInfo : logged (result error value) :=
  let info :=
    VMap [("description", VString "A simple calculator implementing JSON-RPC 2.0");
          ("methods", VSlice [VString "add"; VString "subtract";
                              VString "multiply"; VString "divide"]);
          ("name", VString "JSON-RPC Calculator");
          ("version", VString "1.0")]%string in
  Printf "Calculator: GetInfo called";;;
  ret (Ok info).

(** [reflect.ValueOf(s.calculator).MethodByName(name)] for the methods
    that take a [CalculatorParams]: the method, or the invalid value
    ([None]).  ([Log] and [GetInfo] are methods too, of another
    signature; [callCalculatorMethod] is never called with their
    names.) *)
Definition MethodByName (name : string)
  : option (CalculatorParams -> logged (result error float64)) :=
  if String.eqb name "Add" then Some Add
  else if String.eqb name "Subtract" then Some Subtract
  else if String.eqb name "Multiply" then Some Multiply
  else if String.eqb name "Divide" then Some Divide
  else None.

End Calculator.

(** ** The server *)

Definition rpc_error (code : Z) (message data : string) : error :=
  RPCError {| Code := code; Message := message; Data := VString data |}.

Definition calc_fields : list string := ["a"; "b"]%string.

Definition calc_store (field : string) (j : json) (p : CalculatorParams)
  : result Json.error CalculatorParams :=
  (if String.eqb field "a" then
     f <- store_float64 j (CalculatorParams_A p);;
     Ok {| CalculatorParams_A := f; CalculatorParams_B := CalculatorParams_B p |}
   else
     f <- store_float64 j (CalculatorParams_B p);;
     Ok {| CalculatorParams_A := CalculatorParams_A p; CalculatorParams_B := f |})%result.

Definition calc_zero : CalculatorParams :=
  {| CalculatorParams_A := Float64.zero; CalculatorParams_B := Float64.zero |}.

Definition log_fields : list string := ["message"]%string.

Definition log_store (field : string) (j : json) (p : LogParams)
  : result Json.error LogParams :=
  (s <- store_string j (LogParams_Message p);;
   Ok {| LogParams_Message := s |})%result.

Definition log_zero : LogParams := {| LogParams_Message := "" |}.

(** [callCalculatorMethod] (server.go, lines 140-199): the parameters
    are written with [Marshal] and read back into a [CalculatorParams].
    (The test on the number of results of the reflective call is left
    out: the four methods return two.) *)
Definition callCalculatorMethod (methodName : string) (params : value)
  : logged (result error value) :=
  match params with
  | VNil =>
      ret (Err (rpc_error InvalidParams "Invalid params"
                  (js "Parameters required: {'a': number, 'b': number}")))
  | _ =>
      match Marshal_value params with
      | Err _ =>
          ret (Err (rpc_error InvalidParams "Invalid params" "Cannot marshal parameters"))
      | Ok paramBytes =>
          match Unmarshal (decode_struct calc_fields calc_store) (Raw paramBytes) calc_zero with
          | Err _ =>
              ret (Err (rpc_error InvalidParams "Invalid params"
                          (js "Expected parameters: {'a': number, 'b': number}")))
          | Ok calcParams =>
              match Calculator.MethodByName methodName with
              | None =>
                  ret (Err (rpc_error InternalError "Internal error"
                              ("Method " ++ methodName ++ " not found on calculator")))
              | Some method =>
                  results <~ method calcParams;;
                  match results with
                  | Err err => ret (Err err)
                  | Ok result => ret (Ok (VFloat result))
                  end
              end
          end
      end
  end.

(** [callNotificationMethod] (server.go, lines 202-240). *)
Definition callNotificationMethod (methodName : string) (params : value)
  : logged (result error value) :=
  if String.eqb methodName "Log" then
    match params with
    | VNil =>
        ret (Err (rpc_error InvalidParams "Invalid params"
                    (js "Parameters required: {'message': string}")))
    | _ =>
        match Marshal_value params with
        | Err _ =>
            ret (Err (rpc_error InvalidParams "Invalid params" "Cannot marshal parameters"))
        | Ok paramBytes =>
            match Unmarshal (decode_struct log_fields log_store) (Raw paramBytes) log_zero with
            | Err _ =>
                ret (Err (rpc_error InvalidParams "Invalid params"
                            (js "Expected parameters: {'message': string}")))
            | Ok logParams =>
                Calculator.Log logParams;;;
                ret (Ok VNil)
            end
        end
    end
  else
    ret (Err (rpc_error MethodNotFound "Method not found"
                ("Notification method '" ++ methodName ++ "' is not available"))).

(** [callMethod] (server.go, lines 116-137). *)
Definition callMethod (method : string) (params : value) : logged (result error value) :=
  if String.eqb method "add" then callCalculatorMethod "Add" params
  else if String.eqb method "subtract" then callCalculatorMethod "Subtract" params
  else if String.eqb method "multiply" then callCalculatorMethod "Multiply" params
  else if String.eqb method "divide" then callCalculatorMethod "Divide" params
  else if String.eqb method "getInfo" then Calculator.GetInfo
  else if String.eqb method "log" then callNotificationMethod "Log" params
  else
    ret (Err (rpc_error MethodNotFound "Method not found"
                ("Method '" ++ method ++ "' is not available"))).

(** [handleSingleRequest] (server.go, lines 83-102). *)
Definition handleSingleRequest (req : JSONRPCRequest) : logged JSONRPCResponse :=
  r <~ callMethod (Request_Method req) (Request_Params req);;
  match r with
  | Err (RPCError jsonrpcErr) => ret (CreateErrorResponse jsonrpcErr (Request_ID req))
  | Err err =>
      let jsonrpcErr :=
        {| Code := InternalError; Message := "Internal error";
           Data := VString (error_Error err) |} in
      ret (CreateErrorResponse jsonrpcErr (Request_ID req))
  | Ok result => ret (CreateSuccessResponse result (Request_ID req))
  end.

(** [handleNotification] (server.go, lines 105-113): what the method
    returns is logged when it is an error, and dropped. *)
Definition handleNotification (notif : JSONRPCNotification) : logged unit :=
  Printf ("Handling notification: " ++ Notification_Method notif);;;
  r <~ callMethod (Notification_Method notif) (Notification_Params notif);;
  match r with
  | Err err => Printf ("Notification error (ignored): " ++ error_Error err)
  | Ok _ => ret tt
  end.

(** The loop of [handleBatchRequest]: a message that is neither a
    request nor a notification matches no case of the switch. *)
Fixpoint batch_loop (messages : list message) (responses : list JSONRPCResponse)
  : logged (list JSONRPCResponse) :=
  match messages with
  | [] => ret responses
  | msg :: rest =>
      match msg with
      | Request m =>
          response <~ handleSingleRequest m;;
          batch_loop rest (responses ++ [response])
      | Notification m =>
          handleNotification m;;;
          batch_loop rest responses
      | Batch _ => batch_loop rest responses
      end
  end.

(** [json.Marshal] of a [JSONRPCError]. *)
Definition Marshal_error (e : JSONRPCError) : result Json.error json :=
  (data <- Marshal_interface_omitempty "data" (Data e);;
   Ok (JObject ([("code", JNumber (Int (Code e)));
                 ("message", JString (Message e))]%string ++ data)))%result.

(** [json.Marshal] of a [JSONRPCResponse]. *)
Definition Marshal_response (r : JSONRPCResponse) : result Json.error json :=
  (res <- Marshal_interface_omitempty "result" (Result r);;
   err <- match Error r with
          | Some e => (d <- Marshal_error e;; Ok [("error", d)]%string)
          | None => Ok []
          end;;
   id <- Marshal_value (Response_ID r);;
   Ok (JObject ([("jsonrpc", JString (Response_JSONRPC r))]%string
                  ++ res ++ err ++ [("id", id)]%string)))%result.

Fixpoint Marshal_responses (rs : list JSONRPCResponse) : result Json.error (list json) :=
  match rs with
  | [] => Ok []
  | r :: rest =>
      (d <- Marshal_response r;; ds <- Marshal_responses rest;; Ok (d :: ds))%result
  end.

(** What [HandleRequest] and [handleBatchRequest] return: the bytes
    (held as the tree of the text) or [nil], or the error of [Marshal]. *)
Definition reply : Type := result Json.error (option json).

Definition marshalled (r : result Json.error json) : reply :=
  match r with
  | Ok d => Ok (Some d)
  | Err e => Err e
  end.

(** [handleBatchRequest] (server.go, lines 59-80). *)
Definition handleBatchRequest (messages : list message) : logged reply :=
  responses <~ batch_loop messages [];;
  match responses with
  | [] => ret (Ok None)
  | _ => ret (marshalled (ds <- Marshal_responses responses;; Ok (JArray ds))%result)
  end.

(** [HandleRequest] (server.go, lines 23-56).  The [default] case of
    its switch is left out: [ParseMessage] returns nothing but the three
    kinds of [message]. *)
Definition HandleRequest (data : string) : logged reply :=
  Printf ("Received request: " ++ data);;;
  match ParseMessage data with
  | Err err =>
      let errorResp := CreateErrorResponse err VNil in
      ret (marshalled (Marshal_response errorResp))
  | Ok (Batch msg) => handleBatchRequest msg
  | Ok (Request msg) =>
      response <~ handleSingleRequest msg;;
      ret (marshalled (Marshal_response response))
  | Ok (Notification msg) =>
      handleNotification msg;;;
      ret (Ok None)
  end.

(** ** The transport (main.go)

    The handler that [main] registers for the path [/] (lines 16-77) and
    the one for [/health] (lines 80-84), as functions of what they read
    of the request: its method, what [r.Header.Get("Content-Type")]
    returns (the empty string without such a header) and what
    [io.ReadAll(r.Body)] returns.  What they do to the
    [http.ResponseWriter] is held as the response: the status passed to
    [WriteHeader], the header as [Set] left it, and what was written. *)

Record HTTPRequest := {
  HTTP_Method : string;
  HTTP_ContentType : string;
  HTTP_Body : result string string
}.

(** What a handler writes: one of its own texts, or the bytes that
    [HandleRequest] returned. *)
Inductive payload :=
| OwnText (text : string)
| RPCBytes (bytes : json).

Record HTTPResponse := {
  HTTP_Status : Z;
  HTTP_Header : list (string * string);
  HTTP_Written : option payload
}.

(** [w.Header().Set(key, value)]. *)
Fixpoint Header_Set (key value : string) (h : list (string * string))
  : list (string * string) :=
  match h with
  | [] => [(key, value)]
  | (k, v) :: rest =>
      if String.eqb k key then (key, value) :: rest
      else (k, v) :: Header_Set key value rest
  end.

(** [w.Header().Get(key)]. *)
Fixpoint Header_Get (key : string) (h : list (string * string)) : option string :=
  match h with
  | [] => None
  | (k, v) :: rest => if String.eqb k key then Some v else Header_Get key rest
  end.

(** [strings.Contains]. *)
Fixpoint Contains (s substr : string) : bool :=
  String.prefix substr s
  || match s with
     | EmptyString => false
     | String _ rest => Contains rest substr
     end.

Definition StatusOK : Z := 200.
Definition StatusNoContent : Z := 204.
Definition StatusBadRequest : Z := 400.
Definition StatusMethodNotAllowed : Z := 405.
Definition StatusInternalServerError : Z := 500.

(** The three headers that the handler sets first. *)
Definition cors_header : list (string * string) :=
  Header_Set "Access-Control-Allow-Headers" "Content-Type"
    (Header_Set "Access-Control-Allow-Methods" "POST, OPTIONS"
       (Header_Set "Access-Control-Allow-Origin" "*" [])).

(** The answers that carry one of the handler's own texts. *)
Definition error_reply (status : Z) (text : string) : HTTPResponse :=
  {| HTTP_Status := status;
     HTTP_Header := Header_Set "Content-Type" "application/json" cors_header;
     HTTP_Written := Some (OwnText text) |}.

(** The handler of [/]. *)
Definition rootHandler (r : HTTPRequest) : logged HTTPResponse :=
  if String.eqb (HTTP_Method r) "OPTIONS" then
    ret {| HTTP_Status := StatusOK; HTTP_Header := cors_header; HTTP_Written := None |}
  else if negb (String.eqb (HTTP_Method r) "POST") then
    ret (error_reply StatusMethodNotAllowed
           (js "{'error': 'Only POST method is allowed for JSON-RPC'}"))
  else if negb (Contains (HTTP_ContentType r) "application/json") then
    ret (error_reply StatusBadRequest
           (js "{'error': 'Content-Type must be application/json'}"))
  else
    match HTTP_Body r with
    | Err _ =>
        ret (error_reply StatusBadRequest (js "{'error': 'Cannot read request body'}"))
    | Ok body =>
        response <~ HandleRequest body;;
        match response with
        | Err err =>
            Printf ("Error processing request: " ++ Json.Error err);;;
            ret (error_reply StatusInternalServerError
                   (js "{'error': 'Internal server error'}"))
        | Ok None =>
            ret {| HTTP_Status := StatusNoContent;
                   HTTP_Header := Header_Set "Content-Type" "application/json" cors_header;
                   HTTP_Written := None |}
        | Ok (Some bytes) =>
            ret {| HTTP_Status := StatusOK;
                   HTTP_Header := Header_Set "Content-Type" "application/json" cors_header;
                   HTTP_Written := Some (RPCBytes bytes) |}
        end
    end.

(** The handler of [/health]. *)
Definition healthHandler (r : HTTPRequest) : HTTPResponse :=
  {| HTTP_Status := StatusOK;
     HTTP_Header := Header_Set "Content-Type" "application/json" [];
     HTTP_Written :=
       Some (OwnText (js "{'status': 'healthy', 'service': 'JSON-RPC Calculator'}")) |}.

(** The methods [GetJSONRPC] of the three messages. *)
Definition JSONRPCRequest_GetJSONRPC (r : JSONRPCRequest) : string := Request_JSONRPC r.
Definition JSONRPCNotification_GetJSONRPC (n : JSONRPCNotification) : string :=
  Notification_JSONRPC n.
Definition JSONRPCResponse_GetJSONRPC (r : JSONRPCResponse) : string := Response_JSONRPC r.

(** ** Notions used in the statements *)

(** The response to a request, the lines it logs left aside. *)
Definition respond (req : JSONRPCRequest) : JSONRPCResponse :=
  fst (handleSingleRequest req).

(** The requests among the messages of a batch, in their order. *)
Fixpoint requests_of (messages : list message) : list JSONRPCRequest :=
  match messages with
  | [] => []
  | Request r :: rest => r :: requests_of rest
  | _ :: rest => requests_of rest
  end.

(** The bytes of a batch of responses. *)
Definition Marshal_batch (responses : list JSONRPCResponse) : reply :=
  marshalled (ds <- Marshal_responses responses;; Ok (JArray ds))%result.

(** The member of a name in a text that is an object. *)
Definition member (name : string) (d : json) : option json :=
  match d with
  | JObject ms => option_map snd (find (fun m => String.eqb (fst m) name) ms)
  | _ => None
  end.

(** A response carries a result, or an error, when the member is
    written: a field tagged [omitempty] that is [nil] is not. *)
Definition has_result (r : JSONRPCResponse) : bool :=
  match Result r with VNil => false | _ => true end.

Definition has_error (r : JSONRPCResponse) : bool :=
  match Error r with Some _ => true | None => false end.

(** The claim C2 as stated, for an input that reads as an array: the
    parser returns a batch in which every element that parses on its own
    has its message. *)
Definition isolates_failures (data : string) : Prop :=
  forall batch raw msg,
    read (Text data) = Ok (JArray batch) ->
    In raw batch ->
    ParseSingleMessage (Raw raw) = Ok msg ->
    exists messages, ParseMessage data = Ok (Batch messages) /\ In msg messages.

(** What the members of an object leave in a [CalculatorParams], told
    on the Go value that holds the object: a member whose key is matched
    to a field and whose value is a number sets the field, a later one
    after an earlier one; a member whose value is [nil], or whose key is
    matched to no field, changes nothing. *)
Definition store_entry (k : string) (v : value) (p : CalculatorParams) : CalculatorParams :=
  match find_field calc_fields k, v with
  | Some f, VFloat x =>
      if String.eqb f "a"
      then {| CalculatorParams_A := x; CalculatorParams_B := CalculatorParams_B p |}
      else {| CalculatorParams_A := CalculatorParams_A p; CalculatorParams_B := x |}
  | _, _ => p
  end.

Fixpoint params_after (entries : list (string * value)) (p : CalculatorParams)
  : CalculatorParams :=
  match entries with
  | [] => p
  | (k, v) :: rest => params_after rest (store_entry k v p)
  end.

(** Every member matched to a field is a number or [nil]. *)
Definition numeric_or_nil (v : value) : bool :=
  match v with
  | VFloat _ | VNil => true
  | _ => false
  end.

Definition well_typed_params (entries : list (string * value)) : bool :=
  forallb (fun e => match find_field calc_fields (fst e) with
                    | Some _ => numeric_or_nil (snd e)
                    | None => true
                    end) entries.

(** No member is matched to the field. *)
Definition field_missing (field : string) (entries : list (string * value)) : Prop :=
  forall k v, In (k, v) entries -> find_field calc_fields k <> Some field.

Definition division_by_zero (a : float64) : error :=
  RPCError {| Code := -32000; Message := "Division by zero";
              Data := VString ("Cannot divide " ++ Strconv.FormatF a ++ " by zero") |}.

Definition invalid_params_expected : error :=
  rpc_error InvalidParams "Invalid params"
    (js "Expected parameters: {'a': number, 'b': number}").

Definition invalid_params_required : error :=
  rpc_error InvalidParams "Invalid params"
    (js "Parameters required: {'a': number, 'b': number}").

Definition calculator_methods : list string :=
  ["add"; "subtract"; "multiply"; "divide"]%string.

(** What the method of a name returns on parameters that were decoded:
    the sum, difference or product, and the quotient unless [b] is zero. *)
Definition calc_result (method : string) (p : CalculatorParams) : result error value :=
  let a := CalculatorParams_A p in
  let b := CalculatorParams_B p in
  if String.eqb method "add" then Ok (VFloat (Float64.add a b))
  else if String.eqb method "subtract" then Ok (VFloat (Float64.sub a b))
  else if String.eqb method "multiply" then Ok (VFloat (Float64.mul a b))
  else if Float64.eqb b Float64.zero then Err (division_by_zero a)
  else Ok (VFloat (Float64.div a b)).

(** The parameters after which the calculator is not called: [nil]
    (no member [params], or [null]), a value that is not an object, or an
    object with a member matched to a field that is neither a number nor
    [nil]. *)
Definition refused_params (params : value) : Prop :=
  match params with
  | VNil => True
  | VMap entries => well_typed_params entries = false
  | _ => True
  end.

(** The outermost open container is an array. *)
Fixpoint bottom_array (st : list frame) : bool :=
  match st with
  | [] => false
  | [FArray _] => true
  | [FObject _ _] => false
  | _ :: st' => bottom_array st'
  end.

(** The text being read started with an opening bracket: the array is
    still open, or it has been closed and is the value read. *)
Definition reading_array (st : list frame) (e : expect) : Prop :=
  match st with
  | [] => exists elems, e = EAfter (JArray elems)
  | _ :: _ => bottom_array st = true
  end.

(** A string of white space. *)
Fixpoint all_space (s : string) : bool :=
  match s with
  | EmptyString => true
  | String c rest => is_space c && all_space rest
  end.

(** Every number of the tree is a literal: the tree of a text that was
    read, not written. *)
Fixpoint literal_only (j : json) : bool :=
  match j with
  | JNumber (Literal _) => true
  | JNumber _ => false
  | JArray elems => forallb literal_only elems
  | JObject members => forallb (fun m => literal_only (snd m)) members
  | _ => true
  end.

(** Every float of the value is finite. *)
Fixpoint finite_value (v : value) : bool :=
  match v with
  | VFloat f => Float64.is_finite f
  | VSlice elems => forallb finite_value elems
  | VMap entries => forallb (fun e => finite_value (snd e)) entries
  | _ => true
  end.

Definition members_literal (ms : list (string * json)) : bool :=
  forallb (fun m => literal_only (snd m)) ms.

Definition frame_literal (f : frame) : bool :=
  match f with
  | FArray racc => forallb literal_only racc
  | FObject racc _ => members_literal racc
  end.

Definition expect_literal (e : expect) : bool :=
  match e with
  | EKey racc _ | EColon racc _ => members_literal racc
  | EAfter v => literal_only v
  | _ => true
  end.

Definition bytes_literal (data : bytes) : bool :=
  match data with
  | Text _ => true
  | Raw m => literal_only m
  end.

Definition raw_literal (r : rawMessage) : bool :=
  match raw_Params r with Some p => literal_only p | None => true end
  && match raw_ID r with Some i => literal_only i | None => true end.

(** The parameters and the ids of the message hold finite floats
    only. *)
Fixpoint message_finite (m : message) : bool :=
  match m with
  | Request r => finite_value (Request_Params r) && finite_value (Request_ID r)
  | Notification n => finite_value (Notification_Params n)
  | Batch ms => forallb message_finite ms
  end.

(** The value of the last member of an object that is matched to a
    field of [raw]. *)
Fixpoint last_member (field : string) (ms : list (string * json)) : option json :=
  match ms with
  | [] => None
  | (k, v) :: rest =>
      match last_member field rest with
      | Some x => Some x
      | None =>
          match find_field raw_fields k with
          | Some f => if String.eqb f field then Some v else None
          | None => None
          end
      end
  end.

(** What [ParseSingleMessage] decodes the parameters from. *)
Definition params_of (raw : rawMessage) : result Json.error value :=
  match raw_Params raw with
  | Some p => Unmarshal_interface (Raw p)
  | None => Ok VNil
  end.

(** A request or a notification of the version 2.0 with a method; a
    batch is not one. *)
Definition well_formed_single (m : message) : Prop :=
  match m with
  | Request r => Request_JSONRPC r = JSONRPCVersion /\ Request_Method r <> EmptyString
  | Notification n =>
      Notification_JSONRPC n = JSONRPCVersion /\ Notification_Method n <> EmptyString
  | Batch _ => False
  end.

(** The two kinds of error of the parser. *)
Definition parser_error (e : JSONRPCError) : Prop :=
  (Code e = ParseError /\ Message e = "Parse error"%string
   \/ Code e = InvalidRequest /\ Message e = "Invalid Request"%string)
  /\ exists text, Data e = VString text.

(** The methods that [callMethod] knows. *)
Definition known_methods : list string :=
  ["add"; "subtract"; "multiply"; "divide"; "getInfo"; "log"]%string.

(** What a method may return: a number from the four methods of
    arithmetic, the map of [getInfo], [nil] from [log], or an error with
    one of three codes. *)
Definition method_outcome (method : string) (r : result error value) : Prop :=
  match r with
  | Ok (VFloat _) => In method calculator_methods
  | Ok VNil => method = "log"%string
  | Ok v => method = "getInfo"%string /\ finite_value v = true
  | Err (RPCError e) =>
      (exists text, Data e = VString text) /\
      (Code e = MethodNotFound /\ Message e = "Method not found"%string /\
         ~ In method known_methods
       \/ Code e = InvalidParams /\ Message e = "Invalid params"%string /\
          In method known_methods /\ method <> "getInfo"%string
       \/ Code e = -32000 /\ Message e = "Division by zero"%string /\
          method = "divide"%string)
  | Err (OtherError _) => False
  end.

(** What a method of arithmetic may return. *)
Definition calculator_outcome (name : string) (r : result error value) : Prop :=
  match r with
  | Ok (VFloat _) => True
  | Err (RPCError e) =>
      (exists text, Data e = VString text) /\
      (Code e = InvalidParams /\ Message e = "Invalid params"%string
       \/ Code e = -32000 /\ Message e = "Division by zero"%string /\
          name = "Divide"%string)
  | _ => False
  end.

(** The method and the parameters of a single message. *)
Definition call_of (m : message) : string * value :=
  match m with
  | Request r => (Request_Method r, Request_Params r)
  | Notification n => (Notification_Method n, Notification_Params n)
  | Batch _ => (EmptyString, VNil)
  end.

(** What the members of an object leave in a [LogParams]: a member
    whose key is matched to the field and whose value is a string sets
    it. *)
Definition log_entry (k : string) (v : value) (p : LogParams) : LogParams :=
  match find_field log_fields k, v with
  | Some _, VString s => {| LogParams_Message := s |}
  | _, _ => p
  end.

Fixpoint log_params_after (entries : list (string * value)) (p : LogParams) : LogParams :=
  match entries with
  | [] => p
  | (k, v) :: rest => log_params_after rest (log_entry k v p)
  end.

Definition string_or_nil (v : value) : bool :=
  match v with
  | VString _ | VNil => true
  | _ => false
  end.

Definition well_typed_log_params (entries : list (string * value)) : bool :=
  forallb (fun e => match find_field log_fields (fst e) with
                    | Some _ => string_or_nil (snd e)
                    | None => true
                    end) entries.

(** The requests that the handler of [/] passes on to the server: a
    POST whose content type names JSON and whose body can be read. *)
Definition reaches_server (r : HTTPRequest) : Prop :=
  HTTP_Method r = "POST"%string /\
  Contains (HTTP_ContentType r) "application/json" = true /\
  exists body, HTTP_Body r = Ok body.

(** The result of a response can be written: it is not a float that
    is infinite or not a number. *)
Definition result_finite (r : JSONRPCResponse) : bool :=
  match Result r with
  | VFloat x => Float64.is_finite x
  | _ => true
  end.

(** The claim C6 as stated, for an input that parses as a batch:
    dispatch returns no bytes when the batch holds no request, and
    otherwise an array with the bytes of one response for each request,
    in their order. *)
Definition answers_each_request (data : string) : Prop :=
  forall messages,
    ParseMessage data = Ok (Batch messages) ->
    match requests_of messages with
    | [] => fst (HandleRequest data) = Ok None
    | requests =>
        exists ds,
          fst (HandleRequest data) = Ok (Some (JArray ds)) /\
          Forall2 (fun req d => Marshal_response (respond req) = Ok d) requests ds
    end.

(** The single messages of what the parser returned. *)
Definition messages_of (m : message) : list message :=
  match m with
  | Batch ms => ms
  | _ => [m]
  end.

(** The text of a response: an object with the version 2.0 and a
    member [id], and not both a result and an error. *)
Definition response_object (d : json) : Prop :=
  member "jsonrpc" d = Some (JString JSONRPCVersion) /\
  (exists id, member "id" d = Some id) /\
  (member "result" d = None \/ member "error" d = None).

(** ** Inputs of the examples *)

Definition add_request : string :=
  js "{'jsonrpc':'2.0','method':'add','params':{'a':15,'b':25},'id':1}".

Definition add_request_parsed : JSONRPCRequest :=
  {| Request_JSONRPC := "2.0"; Request_Method := "add";
     Request_Params :=
       VMap [("a", VFloat (Float64.of_Z 15)); ("b", VFloat (Float64.of_Z 25))]%string;
     Request_ID := VFloat (Float64.of_Z 1) |}.

Definition unknown_notification : string :=
  js "{'jsonrpc':'2.0','method':'foo'}".

Definition mixed_batch : string :=
  js "[{'jsonrpc':'2.0','method':'add','params':{'a':1,'b':2},'id':1},{'jsonrpc':'2.0','method':'log','params':{'message':'x'}},{'jsonrpc':'2.0','method':'multiply','params':{'a':3,'b':4},'id':2}]".

Definition mixed_batch_parsed : list message :=
  [Request {| Request_JSONRPC := "2.0"; Request_Method := "add";
              Request_Params :=
                VMap [("a", VFloat (Float64.of_Z 1)); ("b", VFloat (Float64.of_Z 2))];
              Request_ID := VFloat (Float64.of_Z 1) |};
   Notification {| Notification_JSONRPC := "2.0"; Notification_Method := "log";
                   Notification_Params := VMap [("message", VString "x")] |};
   Request {| Request_JSONRPC := "2.0"; Request_Method := "multiply";
              Request_Params :=
                VMap [("a", VFloat (Float64.of_Z 3)); ("b", VFloat (Float64.of_Z 4))];
              Request_ID := VFloat (Float64.of_Z 2) |}]%string.

Definition divide_by_zero_request : string :=
  js "{'jsonrpc':'2.0','method':'divide','params':{'a':5,'b':0},'id':2}".

Definition divide_by_zero_parsed : JSONRPCRequest :=
  {| Request_JSONRPC := "2.0"; Request_Method := "divide";
     Request_Params :=
       VMap [("a", VFloat (Float64.of_Z 5)); ("b", VFloat Float64.zero)]%string;
     Request_ID := VFloat (Float64.of_Z 2) |}.

Definition version_1_request : string :=
  js "{'jsonrpc':'1.0','method':'add','id':3}".

(** A batch of a request that parses and a second one that does not. *)
Definition half_bad_batch_rest : string :=
  js "{'jsonrpc':'2.0','method':'add','params':{'a':1,'b':2},'id':1},{'jsonrpc':'1.0','method':'add','id':2}]".

Definition half_bad_batch : string := String "[" half_bad_batch_rest.

Definition good_element : RawMessage :=
  JObject [("jsonrpc", JString "2.0"); ("method", JString "add");
           ("params", JObject [("a", JNumber (Literal "1")); ("b", JNumber (Literal "2"))]);
           ("id", JNumber (Literal "1"))]%string.

Definition bad_element : RawMessage :=
  JObject [("jsonrpc", JString "1.0"); ("method", JString "add");
           ("id", JNumber (Literal "2"))]%string.

Definition good_element_parsed : message :=
  Request {| Request_JSONRPC := "2.0"; Request_Method := "add";
             Request_Params :=
               VMap [("a", VFloat (Float64.of_Z 1)); ("b", VFloat (Float64.of_Z 2))]%string;
             Request_ID := VFloat (Float64.of_Z 1) |}.

Definition log_request : string :=
  js "{'jsonrpc':'2.0','method':'log','params':{'message':'hi'},'id':7}".

Definition log_request_parsed : JSONRPCRequest :=
  {| Request_JSONRPC := "2.0"; Request_Method := "log";
     Request_Params := VMap [("message", VString "hi")]%string;
     Request_ID := VFloat (Float64.of_Z 7) |}.

Definition null_id_request : string :=
  js "{'jsonrpc':'2.0','method':'add','params':{'a':1,'b':2},'id':null}".

Definition null_id_parsed : JSONRPCNotification :=
  {| Notification_JSONRPC := "2.0"; Notification_Method := "add";
     Notification_Params :=
       VMap [("a", VFloat (Float64.of_Z 1)); ("b", VFloat (Float64.of_Z 2))]%string |}.

Definition one_element_batch : string :=
  js "[{'jsonrpc':'2.0','method':'add','params':{'a':1,'b':2},'id':1}]".

Definition spaced_batch : string := String " " one_element_batch.

Definition divide_missing_b_request : string :=
  js "{'jsonrpc':'2.0','method':'divide','params':{'a':5},'id':1}".

Definition divide_missing_b_parsed : JSONRPCRequest :=
  {| Request_JSONRPC := "2.0"; Request_Method := "divide";
     Request_Params := VMap [("a", VFloat (Float64.of_Z 5))]%string;
     Request_ID := VFloat (Float64.of_Z 1) |}.

Definition add_missing_b_request : string :=
  js "{'jsonrpc':'2.0','method':'add','params':{'a':5,'extra':true},'id':1}".

Definition add_missing_b_parsed : JSONRPCRequest :=
  {| Request_JSONRPC := "2.0"; Request_Method := "add";
     Request_Params := VMap [("a", VFloat (Float64.of_Z 5)); ("extra", VBool true)]%string;
     Request_ID := VFloat (Float64.of_Z 1) |}.

Definition overflow_request : string :=
  js "{'jsonrpc':'2.0','method':'add','params':{'a':1e308,'b':1e308},'id':1}".

Definition overflow_parsed : JSONRPCRequest :=
  {| Request_JSONRPC := "2.0"; Request_Method := "add";
     Request_Params :=
       VMap [("a", VFloat (S754_finite false 5010420900022432 971));
             ("b", VFloat (S754_finite false 5010420900022432 971))]%string;
     Request_ID := VFloat (Float64.of_Z 1) |}.

Definition get_request : HTTPRequest :=
  {| HTTP_Method := "GET"; HTTP_ContentType := "application/json";
     HTTP_Body := Ok add_request |}.

Definition post_request (body : string) : HTTPRequest :=
  {| HTTP_Method := "POST"; HTTP_ContentType := "application/json; charset=utf-8";
     HTTP_Body := Ok body |}.

Definition unknown_method_parsed : JSONRPCRequest :=
  {| Request_JSONRPC := "2.0"; Request_Method := "power";
     Request_Params := VNil; Request_ID := VString "x" |}.

Definition log_params_example : value :=
  VMap [("Message", VString "second"); ("level", VFloat (Float64.of_Z 3));
        ("message", VString "first")]%string.

Definition log_notification : string :=
  js "{'jsonrpc':'2.0','method':'log','params':{'message':'first','level':3,'Message':'second'}}".

Definition log_notification_parsed : JSONRPCNotification :=
  {| Notification_JSONRPC := "2.0"; Notification_Method := "log";
     Notification_Params := log_params_example |}.

(** A batch of two requests, the second of which overflows. *)
Definition overflow_batch : string :=
  js "[{'jsonrpc':'2.0','method':'add','params':{'a':1,'b':2},'id':1},{'jsonrpc':'2.0','method':'add','params':{'a':1e308,'b':1e308},'id':2}]".

Definition overflow_batch_parsed : list message :=
  [Request {| Request_JSONRPC := "2.0"; Request_Method := "add";
              Request_Params :=
                VMap [("a", VFloat (Float64.of_Z 1)); ("b", VFloat (Float64.of_Z 2))];
              Request_ID := VFloat (Float64.of_Z 1) |};
   Request {| Request_JSONRPC := "2.0"; Request_Method := "add";
              Request_Params :=
                VMap [("a", VFloat (S754_finite false 5010420900022432 971));
                      ("b", VFloat (S754_finite false 5010420900022432 971))];
              Request_ID := VFloat (Float64.of_Z 2) |}]%string.

(** * Properties *)

Section Logged.

Context {A B : Type}.

Lemma fst_seq (m : logged A) (k : A -> logged B) :
  fst (seq m k) = fst (k (fst m)).
Proof.
  unfold seq. destruct m as [a l1]. simpl. destruct (k a). reflexivity.
Qed.

Lemma fst_ret (a : A) : fst (ret a) = a.
Proof. reflexivity. Qed.

End Logged.

(** ** The library on small inputs *)

Example ParseFloat_five : Strconv.ParseFloat "5" = Some (Float64.of_Z 5).
Proof. vm_compute. reflexivity. Qed.

Example ParseFloat_tenth :
  Strconv.ParseFloat "0.1" = Some (S754_finite false 7205759403792794 (-56)).
Proof. vm_compute. reflexivity. Qed.

Example ParseFloat_largest :
  Strconv.ParseFloat "1.7976931348623157e308"
  = Some (S754_finite false 9007199254740991 971).
Proof. vm_compute. reflexivity. Qed.

Example ParseFloat_out_of_range : Strconv.ParseFloat "1e999" = None.
Proof. vm_compute. reflexivity. Qed.

Example ParseFloat_underflow : Strconv.ParseFloat "-1e-400" = Some (S754_zero true).
Proof. vm_compute. reflexivity. Qed.

Example FormatF_third :
  Strconv.FormatF (Float64.div (Float64.of_Z 1) (Float64.of_Z 3)) = "0.333333"%string.
Proof. vm_compute. reflexivity. Qed.

Example parse_escapes :
  parse (js "{'\u0069d' : [1.5e3, true, null, '\n']}")
  = Some (JObject [("id", JArray [JNumber (Literal "1.5e3"); JBool true; JNull;
                                  JString (String (chr 10) "")])]%string).
Proof. vm_compute. reflexivity. Qed.

Example parse_trailing_comma : parse (js "[1,]") = None.
Proof. vm_compute. reflexivity. Qed.

Example parse_leading_zero : parse (js "01") = None.
Proof. vm_compute. reflexivity. Qed.

Example parse_two_values : parse (js "{} {}") = None.
Proof. vm_compute. reflexivity. Qed.

Example find_field_exact : find_field raw_fields "id" = Some "id"%string.
Proof. vm_compute. reflexivity. Qed.

Example find_field_folded : find_field raw_fields "ID" = Some "id"%string.
Proof. vm_compute. reflexivity. Qed.

Example find_field_other : find_field raw_fields "identifier" = None.
Proof. vm_compute. reflexivity. Qed.

Example to_value_duplicate_keys :
  option_map to_value (parse (js "{'b':1,'a':2,'b':3}"))
  = Some (Ok (VMap [("a", VFloat (Float64.of_Z 2)); ("b", VFloat (Float64.of_Z 3))]%string)).
Proof. vm_compute. reflexivity. Qed.

Example to_value_out_of_range :
  option_map to_value (parse (js "[1e999]"))
  = Some (Err (UnmarshalTypeError "number out of range")).
Proof. vm_compute. reflexivity. Qed.

(** ** The reader: white space and arrays *)

Lemma lex_space (c : ascii) (s : string) :
  is_space c = true -> lex LBetween (String c s) = lex LBetween s.
Proof.
  intros H. simpl. unfold lex_between. rewrite H.
  destruct (lex LBetween s); reflexivity.
Qed.

Lemma parse_space (c : ascii) (s : string) :
  is_space c = true -> parse (String c s) = parse s.
Proof.
  intros H. unfold parse. now rewrite lex_space.
Qed.

Lemma parse_all_space (ws s : string) :
  all_space ws = true -> parse (ws ++ s) = parse s.
Proof.
  induction ws as [| c ws IH]; simpl; intros H; [reflexivity|].
  apply andb_prop in H. destruct H as [Hc Hws].
  change (parse (String c (ws ++ s)) = parse s).
  rewrite parse_space by exact Hc. now apply IH.
Qed.

Lemma bottom_array_cons (f : frame) (st : list frame) :
  st <> [] -> bottom_array (f :: st) = bottom_array st.
Proof.
  destruct st as [| g st]; [congruence|]. intros _. destruct f; reflexivity.
Qed.

Lemma reading_array_open (st : list frame) (e : expect) :
  reading_array st e ->
  (forall v, e <> EAfter v) ->
  st <> [] /\ bottom_array st = true.
Proof.
  destruct st as [| f st]; simpl.
  - intros [elems ->] H. now contradiction (H (JArray elems)).
  - intros H _. split; [discriminate | exact H].
Qed.

Lemma reading_array_push (f : frame) (st : list frame) (e : expect) :
  st <> [] -> bottom_array st = true -> reading_array (f :: st) e.
Proof.
  intros Hne Hb. simpl. destruct st as [| g st]; [congruence|].
  destruct f; exact Hb.
Qed.

Lemma reading_array_keep (st : list frame) (e : expect) :
  st <> [] -> bottom_array st = true -> reading_array st e.
Proof.
  destruct st as [| f st]; [congruence|]. intros _ H. exact H.
Qed.

Lemma start_value_array (st st' : list frame) (t : token) (e' : expect) :
  st <> [] -> bottom_array st = true ->
  start_value st t = Some (st', e') -> reading_array st' e'.
Proof.
  intros Hne Hb. unfold start_value.
  destruct t; try discriminate;
    try (intros H; inversion H; subst; now apply reading_array_keep);
    destruct (_ <? _); try discriminate;
    intros H; inversion H; subst.
  - now apply reading_array_keep.
  - now apply reading_array_push.
Qed.

Lemma parse_step_array (st st' : list frame) (e e' : expect) (t : token) :
  reading_array st e ->
  parse_step st e t = Some (st', e') ->
  reading_array st' e'.
Proof.
  intros Hinv. destruct e as [| | racc first | racc k | v]; cbn [parse_step].
  - destruct (reading_array_open _ _ Hinv) as [Hne Hb]; [discriminate|].
    now apply start_value_array.
  - destruct (reading_array_open _ _ Hinv) as [Hne Hb]; [discriminate|].
    destruct t; try (now apply start_value_array).
    destruct st as [| [racc | racc k] st2]; try (now apply start_value_array).
    intros H. inversion H. subst.
    destruct st' as [| g st']; [eexists; reflexivity|].
    rewrite bottom_array_cons in Hb by discriminate. exact Hb.
  - destruct (reading_array_open _ _ Hinv) as [Hne Hb]; [discriminate|].
    destruct t; try discriminate.
    + destruct first; [|discriminate].
      intros H. inversion H. subst. now apply reading_array_keep.
    + intros H. inversion H. subst. now apply reading_array_keep.
  - destruct (reading_array_open _ _ Hinv) as [Hne Hb]; [discriminate|].
    destruct t; try discriminate.
    intros H. inversion H. subst. now apply reading_array_push.
  - destruct st as [| [racc | racc k] st2]; [discriminate | |];
      destruct t; try discriminate; intros H; inversion H; subst.
    + destruct st' as [| g st']; [eexists; reflexivity|]. exact Hinv.
    + exact Hinv.
    + destruct st' as [| g st']; [discriminate Hinv|]. exact Hinv.
    + destruct st' as [| g st']; [discriminate Hinv|]. exact Hinv.
Qed.

Lemma parse_tokens_array (ts : list token) :
  forall st e j,
    reading_array st e ->
    parse_tokens st e ts = Some j ->
    exists elems, j = JArray elems.
Proof.
  induction ts as [| t ts IH]; intros st e j Hinv; simpl.
  - destruct st; [|discriminate]. destruct Hinv as [elems ->].
    intros H. inversion H. now exists elems.
  - destruct (parse_step st e t) as [[st' e'] |] eqn:E; [|discriminate].
    apply IH. now apply (parse_step_array _ _ _ _ _ Hinv E).
Qed.

(** A text that starts with an opening bracket reads as an array, if
    it reads at all. *)
Lemma parse_bracket (rest : string) (j : json) :
  parse (String "[" rest) = Some j -> exists elems, j = JArray elems.
Proof.
  unfold parse. simpl lex.
  destruct (lex LBetween rest) as [ts |]; [|discriminate].
  simpl. apply parse_tokens_array. reflexivity.
Qed.

(** ** What is read can be written *)

Lemma json_nested_ind (P : json -> Prop) :
  P JNull ->
  (forall b, P (JBool b)) ->
  (forall n, P (JNumber n)) ->
  (forall s, P (JString s)) ->
  (forall elems, Forall P elems -> P (JArray elems)) ->
  (forall members, Forall (fun m => P (snd m)) members -> P (JObject members)) ->
  forall j, P j.
Proof.
  intros Hnull Hbool Hnum Hstr Harr Hobj. fix IH 1.
  intros [| b | n | s | elems | members].
  - exact Hnull.
  - apply Hbool.
  - apply Hnum.
  - apply Hstr.
  - apply Harr. induction elems as [| x r IHr]; constructor; [apply IH | exact IHr].
  - apply Hobj. induction members as [| [k x] r IHr]; constructor; [apply IH | exact IHr].
Qed.

Lemma value_nested_ind (P : value -> Prop) :
  P VNil ->
  (forall b, P (VBool b)) ->
  (forall f, P (VFloat f)) ->
  (forall s, P (VString s)) ->
  (forall elems, Forall P elems -> P (VSlice elems)) ->
  (forall entries, Forall (fun e => P (snd e)) entries -> P (VMap entries)) ->
  forall v, P v.
Proof.
  intros Hnil Hbool Hfloat Hstr Hslice Hmap. fix IH 1.
  intros [| b | f | s | elems | entries].
  - exact Hnil.
  - apply Hbool.
  - apply Hfloat.
  - apply Hstr.
  - apply Hslice. induction elems as [| x r IHr]; constructor; [apply IH | exact IHr].
  - apply Hmap. induction entries as [| [k x] r IHr]; constructor; [apply IH | exact IHr].
Qed.

Lemma ParseFloat_finite (lit : string) (f : float64) :
  Strconv.ParseFloat lit = Some f -> Float64.is_finite f = true.
Proof.
  unfold Strconv.ParseFloat.
  destruct (Strconv.read_number _) as [d |]; [|discriminate].
  cbv zeta.
  destruct (_ =? 0); [intros H; inversion H; reflexivity|].
  destruct (310 <? _); [discriminate|].
  destruct (_ <? -330); [intros H; inversion H; reflexivity|].
  match goal with
  | |- (if Float64.is_finite ?x then _ else _) = _ -> _ =>
      destruct (Float64.is_finite x) eqn:E; [|discriminate]
  end.
  intros H. inversion H. subst. exact E.
Qed.

Lemma map_set_finite (k : string) (v : value) (m : list (string * value)) :
  finite_value v = true ->
  forallb (fun e => finite_value (snd e)) m = true ->
  forallb (fun e => finite_value (snd e)) (map_set k v m) = true.
Proof.
  intros Hv. induction m as [| [k' v'] rest IH]; simpl; intros H.
  - now rewrite Hv.
  - apply andb_prop in H. destruct H as [H1 H2].
    destruct (String.compare k k'); simpl.
    + now rewrite Hv, H2.
    + now rewrite Hv, H1, H2.
    + now rewrite H1, IH.
Qed.

(** The value of a text that was read holds finite floats only. *)
Lemma to_value_finite (j : json) :
  literal_only j = true ->
  forall v, to_value j = Ok v -> finite_value v = true.
Proof.
  induction j as [| b | n | s | elems IH | members IH] using json_nested_ind;
    intros Hlit v; cbn [to_value].
  - intros H. inversion H. reflexivity.
  - intros H. inversion H. reflexivity.
  - destruct n as [lit | z | f]; try discriminate Hlit.
    unfold store_number, float_of_number.
    destruct (Strconv.ParseFloat lit) as [f |] eqn:E; [|discriminate].
    intros H. inversion H. simpl. now apply ParseFloat_finite in E.
  - intros H. inversion H. reflexivity.
  - match goal with
    | |- bind ?m _ = _ -> _ => destruct m as [vs |] eqn:E; [|discriminate]
    end.
    intros H. inversion H. subst v. clear H. simpl. cbn [literal_only] in Hlit.
    revert vs E. induction IH as [| x r Hx Hr IHr]; intros vs E.
    + inversion E. reflexivity.
    + simpl in Hlit. apply andb_prop in Hlit. destruct Hlit as [Hlx Hlr].
      destruct (to_value x) as [vx |] eqn:Ex; [|discriminate].
      cbn [bind] in E.
      match type of E with
      | context [bind ?m _] => destruct m as [vr |] eqn:Er; [|discriminate]
      end.
      inversion E. simpl. rewrite (Hx Hlx _ eq_refl). now apply IHr.
  - match goal with
    | |- bind ?m _ = _ -> _ => destruct m as [es |] eqn:E; [|discriminate]
    end.
    intros H. inversion H. subst v. clear H. simpl. cbn [literal_only] in Hlit.
    assert (Hacc : forallb (fun e => finite_value (snd e)) (@nil (string * value)) = true)
      by reflexivity.
    revert es E Hacc. generalize (@nil (string * value)) as acc.
    induction IH as [| [k x] r Hx Hr IHr]; intros acc es E Hacc.
    + inversion E. subst. exact Hacc.
    + simpl in Hlit. apply andb_prop in Hlit. destruct Hlit as [Hlx Hlr].
      destruct (to_value x) as [vx |] eqn:Ex; [|discriminate].
      cbn [bind] in E. apply (IHr Hlr _ _ E).
      apply map_set_finite; [now apply (Hx Hlx) | exact Hacc].
Qed.

(** A value that holds finite floats only can be written. *)
Lemma Marshal_value_finite (v : value) :
  finite_value v = true -> exists d, Marshal_value v = Ok d.
Proof.
  induction v as [| b | f | s | elems IH | entries IH] using value_nested_ind;
    intros Hfin; cbn [Marshal_value].
  - eexists. reflexivity.
  - eexists. reflexivity.
  - simpl in Hfin. rewrite Hfin. eexists. reflexivity.
  - eexists. reflexivity.
  - cbn [finite_value] in Hfin.
    match goal with
    | |- exists d, bind ?m _ = _ => assert (exists ds, m = Ok ds) as [ds ->]
    end; [|eexists; reflexivity].
    induction IH as [| x r Hx Hr IHr]; [eexists; reflexivity|].
    simpl in Hfin. apply andb_prop in Hfin. destruct Hfin as [Hfx Hfr].
    destruct (Hx Hfx) as [d ->]. cbn [bind].
    destruct (IHr Hfr) as [ds ->]. eexists. reflexivity.
  - cbn [finite_value] in Hfin.
    match goal with
    | |- exists d, bind ?m _ = _ => assert (exists ms, m = Ok ms) as [ms ->]
    end; [|eexists; reflexivity].
    induction IH as [| [k x] r Hx Hr IHr]; [eexists; reflexivity|].
    simpl in Hfin, Hx. apply andb_prop in Hfin. destruct Hfin as [Hfx Hfr].
    destruct (Hx Hfx) as [d ->]. cbn [bind].
    destruct (IHr Hfr) as [ms ->]. eexists. reflexivity.
Qed.

Lemma forallb_rev {A : Type} (f : A -> bool) (l : list A) :
  forallb f (rev l) = forallb f l.
Proof.
  induction l as [| x l IH]; simpl; [reflexivity|].
  rewrite forallb_app, IH. simpl. rewrite andb_true_r. apply andb_comm.
Qed.

Lemma start_value_literal (st st' : list frame) (t : token) (e' : expect) :
  forallb frame_literal st = true ->
  start_value st t = Some (st', e') ->
  forallb frame_literal st' = true /\ expect_literal e' = true.
Proof.
  intros Hst. unfold start_value.
  destruct t; try discriminate;
    try (intros H; inversion H; subst; split; [exact Hst | reflexivity]);
    destruct (_ <? _); try discriminate;
    intros H; inversion H; subst; split; try reflexivity; exact Hst.
Qed.

Lemma parse_step_literal (st st' : list frame) (e e' : expect) (t : token) :
  forallb frame_literal st = true ->
  expect_literal e = true ->
  parse_step st e t = Some (st', e') ->
  forallb frame_literal st' = true /\ expect_literal e' = true.
Proof.
  intros Hst He. destruct e as [| | racc first | racc k | v]; cbn [parse_step];
    simpl in He.
  - now apply start_value_literal.
  - destruct t; try (now apply start_value_literal).
    destruct st as [| [racc | racc k] st2]; try (now apply start_value_literal).
    intros H. inversion H. subst. simpl in Hst.
    apply andb_prop in Hst. destruct Hst as [_ Hst]. split; [exact Hst | reflexivity].
  - destruct t; try discriminate.
    + destruct first; [|discriminate].
      intros H. inversion H. subst. split; [exact Hst | reflexivity].
    + intros H. inversion H. subst. split; [exact Hst | exact He].
  - destruct t; try discriminate.
    intros H. inversion H. subst. split; [|reflexivity].
    simpl. now rewrite Hst, He.
  - destruct st as [| [racc | racc k] st2]; [discriminate | |];
      simpl in Hst; apply andb_prop in Hst; destruct Hst as [Hf Hst];
      destruct t; try discriminate; intros H; inversion H; subst; simpl.
    + split; [exact Hst|]. rewrite forallb_app, forallb_rev, Hf. simpl. now rewrite He.
    + split; [|reflexivity]. now rewrite He, Hf, Hst.
    + split; [exact Hst|]. unfold members_literal in *.
      rewrite forallb_app, forallb_rev, Hf. simpl. now rewrite He.
    + split; [exact Hst|]. unfold members_literal in *. simpl. now rewrite He, Hf.
Qed.

Lemma parse_tokens_literal (ts : list token) :
  forall st e j,
    forallb frame_literal st = true ->
    expect_literal e = true ->
    parse_tokens st e ts = Some j ->
    literal_only j = true.
Proof.
  induction ts as [| t ts IH]; intros st e j Hst He; simpl.
  - destruct st; [|discriminate]. destruct e; try discriminate.
    intros H. inversion H. subst. exact He.
  - destruct (parse_step st e t) as [[st' e'] |] eqn:E; [|discriminate].
    destruct (parse_step_literal _ _ _ _ _ Hst He E) as [Hst' He'].
    now apply IH.
Qed.

(** The numbers of a text that was read are literals. *)
Lemma parse_literal (data : string) (j : json) :
  parse data = Some j -> literal_only j = true.
Proof.
  unfold parse. destruct (lex LBetween data) as [ts |]; [|discriminate].
  now apply parse_tokens_literal.
Qed.

Lemma read_literal (data : bytes) (j : json) :
  bytes_literal data = true -> read data = Ok j -> literal_only j = true.
Proof.
  destruct data as [s | m]; simpl.
  - intros _. destruct (parse s) as [j' |] eqn:E; [|discriminate].
    intros H. inversion H. subst. now apply parse_literal in E.
  - intros Hm H. inversion H. subst. exact Hm.
Qed.

Lemma raw_store_literal (field : string) (j : json) (r r' : rawMessage) :
  literal_only j = true ->
  raw_literal r = true ->
  raw_store field j r = Ok r' ->
  raw_literal r' = true.
Proof.
  intros Hj Hr. unfold raw_store, raw_literal in *.
  apply andb_prop in Hr. destruct Hr as [Hp Hi].
  destruct (String.eqb field "jsonrpc").
  { destruct (store_string j _); [|discriminate].
    intros H. inversion H. simpl. now rewrite Hp, Hi. }
  destruct (String.eqb field "method").
  { destruct (store_string j _); [|discriminate].
    intros H. inversion H. simpl. now rewrite Hp, Hi. }
  destruct (String.eqb field "params").
  { intros H. inversion H. simpl. now rewrite Hj, Hi. }
  intros H. inversion H. simpl. rewrite Hp. simpl.
  destruct j; try reflexivity; exact Hj.
Qed.

Lemma decode_raw_literal (ms : list (string * json)) :
  forall r r',
    members_literal ms = true ->
    raw_literal r = true ->
    decode_members raw_fields raw_store ms r = Ok r' ->
    raw_literal r' = true.
Proof.
  induction ms as [| [k v] rest IH]; intros r r' Hms Hr; simpl.
  - intros H. inversion H. subst. exact Hr.
  - simpl in Hms. apply andb_prop in Hms. destruct Hms as [Hv Hrest].
    destruct (find_field raw_fields k) as [f |]; [|now apply IH].
    destruct (raw_store f v r) as [r1 |] eqn:E; [|discriminate].
    cbn [bind]. apply IH; [exact Hrest|].
    now apply (raw_store_literal _ _ _ _ Hv Hr E).
Qed.

Lemma ParseSingleMessage_finite (data : bytes) (m : message) :
  bytes_literal data = true ->
  ParseSingleMessage data = Ok m ->
  message_finite m = true.
Proof.
  intros Hdata. unfold ParseSingleMessage, Unmarshal.
  destruct (read data) as [j |] eqn:Ej; [|discriminate].
  pose proof (read_literal _ _ Hdata Ej) as Hj. cbn [bind].
  destruct (decode_struct raw_fields raw_store j raw_zero) as [raw |] eqn:Er;
    [|discriminate].
  assert (Hraw : raw_literal raw = true).
  { destruct j as [| | | | | members]; try discriminate Er.
    - inversion Er. reflexivity.
    - exact (decode_raw_literal members raw_zero raw Hj eq_refl Er). }
  unfold raw_literal in Hraw. apply andb_prop in Hraw. destruct Hraw as [Hp Hi].
  destruct (negb _); [discriminate|].
  destruct (String.eqb _ _); [discriminate|].
  assert (Htail : forall params,
             finite_value params = true ->
             match raw_ID raw with
             | Some id_raw =>
                 match Unmarshal_interface (Raw id_raw) with
                 | Err _ => Err (invalid_request "Invalid ID field")
                 | Ok id =>
                     Ok (Request {| Request_JSONRPC := raw_JSONRPC raw;
                                    Request_Method := raw_Method raw;
                                    Request_Params := params;
                                    Request_ID := id |})
                 end
             | None =>
                 Ok (Notification {| Notification_JSONRPC := raw_JSONRPC raw;
                                     Notification_Method := raw_Method raw;
                                     Notification_Params := params |})
             end = Ok m ->
             message_finite m = true).
  { intros params Hparams. destruct (raw_ID raw) as [i |].
    - destruct (Unmarshal_interface (Raw i)) as [id |] eqn:Ei; [|discriminate].
      intros H. inversion H. simpl. rewrite Hparams. simpl.
      unfold Unmarshal_interface, Unmarshal in Ei. simpl in Ei.
      now apply (to_value_finite _ Hi).
    - intros H. inversion H. exact Hparams. }
  destruct (raw_Params raw) as [p |].
  - unfold Unmarshal_interface at 1. unfold Unmarshal. cbn [read bind].
    destruct (to_value p) as [params |] eqn:Ep; [|discriminate].
    apply Htail. now apply (to_value_finite _ Hp).
  - apply Htail. reflexivity.
Qed.

Lemma parse_batch_finite (batch : list RawMessage) :
  forall messages parsed,
    forallb literal_only batch = true ->
    forallb message_finite messages = true ->
    parse_batch batch messages = Ok parsed ->
    forallb message_finite parsed = true.
Proof.
  induction batch as [| raw rest IH]; intros messages parsed Hb Hm; simpl.
  - intros H. inversion H. subst. exact Hm.
  - simpl in Hb. apply andb_prop in Hb. destruct Hb as [Hraw Hrest].
    destruct (ParseSingleMessage (Raw raw)) as [msg |] eqn:E; [|discriminate].
    apply IH; [exact Hrest|].
    rewrite forallb_app, Hm. simpl.
    now rewrite (ParseSingleMessage_finite (Raw raw) msg Hraw E).
Qed.

(** The parameters and ids of the messages the parser returns hold
    finite floats only. *)
Lemma ParseMessage_finite (data : string) (m : message) :
  ParseMessage data = Ok m -> message_finite m = true.
Proof.
  unfold ParseMessage. destruct data as [| c rest].
  - now apply ParseSingleMessage_finite.
  - destruct (Ascii.eqb c "["); [|now apply ParseSingleMessage_finite].
    unfold Unmarshal.
    destruct (read (Text (String c rest))) as [j |] eqn:Ej; [|discriminate].
    pose proof (read_literal (Text (String c rest)) j eq_refl Ej) as Hj.
    cbn [bind].
    destruct (store_raw_slice j []) as [batch |] eqn:Eb; [|discriminate].
    assert (Hbatch : forallb literal_only batch = true).
    { destruct j; try discriminate Eb; inversion Eb; subst; [reflexivity | exact Hj]. }
    destruct (parse_batch batch []) as [parsed |] eqn:Ep; [|discriminate].
    cbn [bind]. intros H. inversion H. simpl.
    exact (parse_batch_finite batch [] parsed Hbatch eq_refl Ep).
Qed.

(** The parameters of a request that the parser returned can be
    written: [callCalculatorMethod] never fails to marshal them. *)
Lemma request_params_marshal (data : string) (req : JSONRPCRequest) :
  ParseMessage data = Ok (Request req) ->
  exists paramBytes, Marshal_value (Request_Params req) = Ok paramBytes.
Proof.
  intros H. apply ParseMessage_finite in H. simpl in H.
  apply andb_prop in H. destruct H as [H _]. now apply Marshal_value_finite.
Qed.

(** ** Requests and their responses *)

(** The response to a request is built from what [callMethod] returns,
    always with the id of the request. *)
Lemma respond_cases (req : JSONRPCRequest) :
  respond req =
  match fst (callMethod (Request_Method req) (Request_Params req)) with
  | Ok result => CreateSuccessResponse result (Request_ID req)
  | Err (RPCError e) => CreateErrorResponse e (Request_ID req)
  | Err err =>
      CreateErrorResponse
        {| Code := InternalError; Message := "Internal error";
           Data := VString (error_Error err) |} (Request_ID req)
  end.
Proof.
  unfold respond, handleSingleRequest. rewrite fst_seq.
  destruct (fst (callMethod _ _)) as [v | [e | msg]]; reflexivity.
Qed.

Lemma respond_id (req : JSONRPCRequest) :
  Response_ID (respond req) = Request_ID req.
Proof.
  rewrite respond_cases.
  destruct (fst (callMethod _ _)) as [v | [e | msg]]; reflexivity.
Qed.

Lemma HandleRequest_request (data : string) (req : JSONRPCRequest) :
  ParseMessage data = Ok (Request req) ->
  fst (HandleRequest data) = marshalled (Marshal_response (respond req)).
Proof.
  intros H. unfold HandleRequest. rewrite fst_seq, H, fst_seq. reflexivity.
Qed.

Lemma Marshal_omitempty_shape (name : string) (v : value) (ms : list (string * json)) :
  Marshal_interface_omitempty name v = Ok ms ->
  ms = [] \/ exists d, ms = [(name, d)].
Proof.
  unfold Marshal_interface_omitempty.
  destruct v; try (intros H; inversion H; now left);
    (destruct (Marshal_value _); [|discriminate];
     intros H; inversion H; right; eexists; reflexivity).
Qed.

(** The member [id] of the bytes of a response is its id, written. *)
Lemma Marshal_response_id (r : JSONRPCResponse) (d : json) :
  Marshal_response r = Ok d ->
  exists id, Marshal_value (Response_ID r) = Ok id /\ member "id" d = Some id.
Proof.
  unfold Marshal_response.
  destruct (Marshal_interface_omitempty "result" (Result r)) as [res |] eqn:Eres;
    [|discriminate].
  cbn [bind].
  match goal with
  | |- bind ?m _ = _ -> _ => destruct m as [err |] eqn:Eerr; [|discriminate]
  end.
  cbn [bind].
  destruct (Marshal_value (Response_ID r)) as [id |]; [|discriminate].
  cbn [bind]. intros H. inversion H. subst d. exists id. split; [reflexivity|].
  assert (Herr : err = [] \/ exists e, err = [("error"%string, e)]).
  { destruct (Error r) as [e |].
    - destruct (Marshal_error e); [|discriminate].
      inversion Eerr. right. eexists. reflexivity.
    - inversion Eerr. now left. }
  destruct (Marshal_omitempty_shape _ _ _ Eres) as [-> | [x ->]];
    destruct Herr as [-> | [y ->]]; reflexivity.
Qed.

(** C4: for an input that parses as a single request, what dispatch
    returns is the bytes of one response (or the error of [Marshal], when
    the result is a float that is not finite), and the id of that
    response is the id of the request -- the Go value that the parser
    stored, of the same type and value -- whether the method returned a
    result, a protocol error or any other error (and whether or not the
    method is registered); in the bytes the member [id] is that id,
    written. *)
Theorem C4_response_id_is_request_id (data : string) (req : JSONRPCRequest) :
  ParseMessage data = Ok (Request req) ->
  fst (HandleRequest data) = marshalled (Marshal_response (respond req)) /\
  Response_ID (respond req) = Request_ID req /\
  (forall result,
      fst (callMethod (Request_Method req) (Request_Params req)) = Ok result ->
      respond req = CreateSuccessResponse result (Request_ID req)) /\
  (forall err,
      fst (callMethod (Request_Method req) (Request_Params req)) = Err err ->
      exists e, respond req = CreateErrorResponse e (Request_ID req)) /\
  (forall d,
      fst (HandleRequest data) = Ok (Some d) ->
      exists id, Marshal_value (Request_ID req) = Ok id /\ member "id" d = Some id).
Proof.
  intros H. split; [now apply HandleRequest_request|].
  split; [apply respond_id|]. split; [|split].
  - intros result Hr. rewrite respond_cases, Hr. reflexivity.
  - intros err Hr. rewrite respond_cases, Hr.
    destruct err as [e | msg]; eexists; reflexivity.
  - intros d. rewrite (HandleRequest_request _ _ H).
    destruct (Marshal_response (respond req)) as [d' |] eqn:E; [|discriminate].
    intros Hd. inversion Hd. subst d'.
    rewrite <- (respond_id req). now apply Marshal_response_id.
Qed.

Lemma C4_witness :
  ParseMessage add_request = Ok (Request add_request_parsed) /\
  Response_ID (respond add_request_parsed) = VFloat (Float64.of_Z 1) /\
  fst (HandleRequest add_request) =
    Ok (Some (JObject [("jsonrpc", JString "2.0");
                       ("result", JNumber (Float (Float64.of_Z 40)));
                       ("id", JNumber (Float (Float64.of_Z 1)))]%string)).
Proof.
  assert (H : ParseMessage add_request = Ok (Request add_request_parsed))
    by (vm_compute; reflexivity).
  destruct (C4_response_id_is_request_id add_request add_request_parsed H)
    as [H1 [H2 _]].
  split; [exact H|]. split; [exact H2|].
  etransitivity; [exact H1 | vm_compute; reflexivity].
Defined.

(** ** Batches *)

Lemma batch_loop_responses (messages : list message) :
  forall responses,
    fst (batch_loop messages responses) =
    responses ++ map respond (requests_of messages).
Proof.
  induction messages as [| msg rest IH]; intros responses; simpl.
  - now rewrite app_nil_r.
  - destruct msg as [r | n | ms].
    + rewrite fst_seq, IH, <- app_assoc. reflexivity.
    + rewrite fst_seq, IH. reflexivity.
    + apply IH.
Qed.

Lemma handleBatchRequest_responses (messages : list message) :
  fst (handleBatchRequest messages) =
  match map respond (requests_of messages) with
  | [] => Ok None
  | responses => Marshal_batch responses
  end.
Proof.
  unfold handleBatchRequest. rewrite fst_seq, batch_loop_responses. simpl.
  destruct (map respond (requests_of messages)); reflexivity.
Qed.

(** ** Errors of the methods *)

Lemma Divide_by_zero (params : CalculatorParams) :
  Float64.eqb (CalculatorParams_B params) Float64.zero = true ->
  exists data,
    fst (Calculator.Divide params) =
    Err (RPCError {| Code := -32000; Message := "Division by zero"; Data := data |}).
Proof.
  intros H. unfold Calculator.Divide. rewrite H. eexists. reflexivity.
Qed.

(** C8: dispatching the division of 5 by 0 with id 2 returns the bytes
    of an error response with code -32000 and id 2; and whenever the
    method of a request returns a protocol error (a [*JSONRPCError]) the
    response is the error response made of that very error -- code,
    message and data -- and the id of the request. *)
Theorem C8_protocol_error_verbatim :
  fst (HandleRequest divide_by_zero_request) =
    Ok (Some (JObject
                [("jsonrpc", JString "2.0");
                 ("error", JObject [("code", JNumber (Int (-32000)));
                                    ("message", JString "Division by zero");
                                    ("data", JString "Cannot divide 5.000000 by zero")]);
                 ("id", JNumber (Float (Float64.of_Z 2)))]%string)) /\
  forall (req : JSONRPCRequest) (e : JSONRPCError),
    fst (callMethod (Request_Method req) (Request_Params req)) = Err (RPCError e) ->
    respond req = CreateErrorResponse e (Request_ID req) /\
    Error (respond req) = Some e /\
    Response_ID (respond req) = Request_ID req.
Proof.
  split; [vm_compute; reflexivity|].
  intros req e H. rewrite respond_cases, H. repeat split.
Qed.

Lemma C8_witness :
  ParseMessage divide_by_zero_request = Ok (Request divide_by_zero_parsed) /\
  respond divide_by_zero_parsed =
    CreateErrorResponse
      {| Code := -32000; Message := "Division by zero";
         Data := VString "Cannot divide 5.000000 by zero" |}
      (VFloat (Float64.of_Z 2)).
Proof.
  split; [vm_compute; reflexivity|].
  apply (proj2 C8_protocol_error_verbatim divide_by_zero_parsed).
  vm_compute. reflexivity.
Defined.

(** ** Inputs that do not parse *)

(** The data of every error of the parser is a string. *)
Lemma ParseSingleMessage_error_data (data : bytes) (e : JSONRPCError) :
  ParseSingleMessage data = Err e -> exists s, Data e = VString s.
Proof.
  unfold ParseSingleMessage.
  destruct (Unmarshal _ data raw_zero) as [raw | err].
  2: { intros H. inversion H. eexists. reflexivity. }
  destruct (negb _). { intros H. inversion H. eexists. reflexivity. }
  destruct (String.eqb _ _). { intros H. inversion H. eexists. reflexivity. }
  destruct (match raw_Params raw with Some _ => _ | None => _ end).
  2: { intros H. inversion H. eexists. reflexivity. }
  destruct (raw_ID raw); [|discriminate].
  destruct (Unmarshal_interface _); [discriminate|].
  intros H. inversion H. eexists. reflexivity.
Qed.

Lemma parse_batch_error_data (batch : list RawMessage) :
  forall messages e,
    parse_batch batch messages = Err e -> exists s, Data e = VString s.
Proof.
  induction batch as [| raw rest IH]; intros messages e; simpl; [discriminate|].
  destruct (ParseSingleMessage (Raw raw)) eqn:E.
  - apply IH.
  - intros H. inversion H. subst. now apply ParseSingleMessage_error_data in E.
Qed.

Lemma ParseMessage_error_data (data : string) (e : JSONRPCError) :
  ParseMessage data = Err e -> exists s, Data e = VString s.
Proof.
  unfold ParseMessage. destruct data as [| c rest].
  - apply ParseSingleMessage_error_data.
  - destruct (Ascii.eqb c "["); [|apply ParseSingleMessage_error_data].
    destruct (Unmarshal store_raw_slice _ _) as [batch | err].
    + destruct (parse_batch batch []) eqn:E; simpl; [discriminate|].
      intros H. inversion H. subst. now apply parse_batch_error_data in E.
    + intros H. inversion H. eexists. reflexivity.
Qed.

(** C3 as amended: whenever the parser fails -- with InvalidRequest as
    with any other error, and whether or not the input holds an id that
    could be read -- dispatch returns the bytes of the error response of
    that error with id null. *)
Theorem C3_parse_failure_id_null (data : string) (e : JSONRPCError) :
  ParseMessage data = Err e ->
  exists s,
    Data e = VString s /\
    fst (HandleRequest data) =
      Ok (Some (JObject
                  [("jsonrpc", JString "2.0");
                   ("error", JObject [("code", JNumber (Int (Code e)));
                                      ("message", JString (Message e));
                                      ("data", JString s)]);
                   ("id", JNull)]%string)).
Proof.
  intros H. destruct (ParseMessage_error_data data e H) as [s Hs].
  exists s. split; [exact Hs|].
  unfold HandleRequest. rewrite fst_seq, H. simpl.
  unfold Marshal_response, Marshal_error. simpl. rewrite Hs. reflexivity.
Qed.

Lemma C3_witness :
  exists s,
    VString "jsonrpc field must be '2.0'" = VString s /\
    fst (HandleRequest version_1_request) =
      Ok (Some (JObject
                  [("jsonrpc", JString "2.0");
                   ("error", JObject [("code", JNumber (Int InvalidRequest));
                                      ("message", JString "Invalid Request");
                                      ("data", JString s)]);
                   ("id", JNull)]%string)).
Proof.
  apply (C3_parse_failure_id_null version_1_request
           (invalid_request "jsonrpc field must be '2.0'")).
  vm_compute. reflexivity.
Defined.

(** C3 as stated fails: the input has jsonrpc 1.0 and the id 3, which
    reads as the number 3, and the id of the InvalidRequest response is
    null, not 3. *)
Lemma C3_counterexample :
  (exists ms id,
      read (Text version_1_request) = Ok (JObject ms) /\
      find (fun m => String.eqb (fst m) "id") ms = Some id /\
      Unmarshal_interface (Raw (snd id)) = Ok (VFloat (Float64.of_Z 3))) /\
  (exists d,
      fst (HandleRequest version_1_request) = Ok (Some d) /\
      option_map (member "code") (member "error" d)
        = Some (Some (JNumber (Int InvalidRequest))) /\
      member "id" d = Some JNull /\
      member "id" d <> Some (JNumber (Float (Float64.of_Z 3)))).
Proof.
  split.
  - do 2 eexists. repeat split; vm_compute; reflexivity.
  - eexists. split; [vm_compute; reflexivity|].
    repeat split; try (vm_compute; reflexivity).
    vm_compute. discriminate.
Qed.

(** ** Batches with an element that fails *)

Lemma parse_batch_all (batch : list RawMessage) :
  forall parsed messages,
    Forall2 (fun raw msg => ParseSingleMessage (Raw raw) = Ok msg) batch parsed ->
    parse_batch batch messages = Ok (messages ++ parsed).
Proof.
  induction batch as [| raw rest IH]; intros parsed messages H; inversion H; subst; simpl.
  - now rewrite app_nil_r.
  - rewrite H2, (IH _ _ H4), <- app_assoc. reflexivity.
Qed.

Lemma parse_batch_first_error (pre : list RawMessage) :
  forall parsed messages bad post e,
    Forall2 (fun raw msg => ParseSingleMessage (Raw raw) = Ok msg) pre parsed ->
    ParseSingleMessage (Raw bad) = Err e ->
    parse_batch (pre ++ bad :: post) messages = Err e.
Proof.
  induction pre as [| raw rest IH]; intros parsed messages bad post e H Hbad;
    inversion H; subst; simpl.
  - now rewrite Hbad.
  - rewrite H2. now apply (IH l').
Qed.

Lemma ParseMessage_batch (rest : string) (batch : list RawMessage) :
  read (Text (String "[" rest)) = Ok (JArray batch) ->
  ParseMessage (String "[" rest) =
  match parse_batch batch [] with
  | Ok messages => Ok (Batch messages)
  | Err e => Err e
  end.
Proof.
  intros H. unfold ParseMessage, Unmarshal. simpl Ascii.eqb. cbv iota.
  rewrite H. simpl. destruct (parse_batch batch []); reflexivity.
Qed.

(** C2 as amended: an input that starts with a bracket and reads is an
    array, and its elements are parsed in their order.  When every
    element parses, the parser returns the batch of their requests and
    notifications, in that order.  When an element fails, the parser
    returns the error of the first such element and no message at all --
    the elements before it, which parsed, and those after it are dropped
    -- and dispatch returns one error response with id null. *)
Theorem C2_batch_aborts_on_first_error (rest : string) (j : json) :
  read (Text (String "[" rest)) = Ok j ->
  exists batch,
    j = JArray batch /\
    (forall parsed,
        Forall2 (fun raw msg => ParseSingleMessage (Raw raw) = Ok msg) batch parsed ->
        ParseMessage (String "[" rest) = Ok (Batch parsed)) /\
    (forall pre bad post parsed e,
        batch = pre ++ bad :: post ->
        Forall2 (fun raw msg => ParseSingleMessage (Raw raw) = Ok msg) pre parsed ->
        ParseSingleMessage (Raw bad) = Err e ->
        ParseMessage (String "[" rest) = Err e /\
        fst (HandleRequest (String "[" rest)) =
          marshalled (Marshal_response (CreateErrorResponse e VNil))).
Proof.
  intros H.
  assert (Hj : exists batch, j = JArray batch).
  { unfold read in H. destruct (parse (String "[" rest)) as [j' |] eqn:E; [|discriminate].
    inversion H. subst. now apply parse_bracket in E. }
  destruct Hj as [batch ->]. exists batch. split; [reflexivity|]. split.
  - intros parsed Hall. rewrite (ParseMessage_batch _ _ H).
    now rewrite (parse_batch_all _ _ [] Hall).
  - intros pre bad post parsed e -> Hpre Hbad.
    assert (HP : ParseMessage (String "[" rest) = Err e).
    { rewrite (ParseMessage_batch _ _ H).
      now rewrite (parse_batch_first_error _ _ _ _ _ _ Hpre Hbad). }
    split; [exact HP|].
    unfold HandleRequest. rewrite fst_seq, HP. reflexivity.
Qed.

Lemma C2_witness :
  ParseMessage half_bad_batch = Err (invalid_request "jsonrpc field must be '2.0'") /\
  fst (HandleRequest half_bad_batch) =
    marshalled (Marshal_response
                  (CreateErrorResponse (invalid_request "jsonrpc field must be '2.0'") VNil)).
Proof.
  assert (H : read (Text (String "[" half_bad_batch_rest))
              = Ok (JArray [good_element; bad_element]))
    by (vm_compute; reflexivity).
  destruct (C2_batch_aborts_on_first_error _ _ H) as [batch [Hj [_ Hfirst]]].
  apply (Hfirst [good_element] bad_element [] [good_element_parsed]).
  - now inversion Hj.
  - constructor; [vm_compute; reflexivity | constructor].
  - vm_compute. reflexivity.
Defined.

(** C2 as stated fails: the first element of the batch parses on its
    own, the second does not, and the parser returns no batch. *)
Lemma C2_counterexample : ~ isolates_failures half_bad_batch.
Proof.
  intros H.
  destruct (H [good_element; bad_element] good_element good_element_parsed)
    as [messages [HP _]].
  - vm_compute. reflexivity.
  - left. reflexivity.
  - vm_compute. reflexivity.
  - vm_compute in HP. discriminate.
Qed.

(** ** A request for [log] *)

(** A response never carries both a result and an error. *)
Lemma respond_not_both (req : JSONRPCRequest) :
  has_result (respond req) && has_error (respond req) = false.
Proof.
  rewrite respond_cases.
  destruct (fst (callMethod _ _)) as [v | [e | msg]]; simpl;
    [apply andb_false_r | reflexivity | reflexivity].
Qed.

(** It carries neither exactly when the method returned [nil] and no
    error. *)
Lemma respond_neither (req : JSONRPCRequest) :
  has_result (respond req) || has_error (respond req) = false <->
  fst (callMethod (Request_Method req) (Request_Params req)) = Ok VNil.
Proof.
  rewrite respond_cases.
  destruct (fst (callMethod _ _)) as [v | [e | msg]]; simpl.
  - destruct v; simpl; split; intros H; try discriminate; reflexivity.
  - split; discriminate.
  - split; discriminate.
Qed.

Lemma callCalculatorMethod_not_nil (methodName : string) (params : value) :
  fst (callCalculatorMethod methodName params) <> Ok VNil.
Proof.
  unfold callCalculatorMethod. intros H.
  destruct params; try discriminate H;
    (destruct (Marshal_value _); [|discriminate H];
     destruct (Unmarshal _ _ _); [|discriminate H];
     destruct (Calculator.MethodByName methodName) as [method |]; [|discriminate H];
     rewrite fst_seq in H;
     match type of H with
     | context [fst (method ?x)] => destruct (fst (method x))
     end; discriminate H).
Qed.

(** Only [log] returns [nil] and no error. *)
Lemma callMethod_nil_is_log (method : string) (params : value) :
  fst (callMethod method params) = Ok VNil -> method = "log"%string.
Proof.
  unfold callMethod.
  repeat match goal with
         | |- context [String.eqb method ?s] =>
             destruct (String.eqb_spec method s);
             [try (intros H; now apply callCalculatorMethod_not_nil in H) |]
         end; try discriminate.
  intros _. assumption.
Qed.

(** C7 fails on a request for [log]: the method returns [nil] and no
    error, the response has neither a result nor an error, and the bytes
    are an object with the members [jsonrpc] and [id] only.  (The
    response to a request for [add] carries a result and no error.) *)
Theorem C7_log_request_neither :
  ParseMessage log_request = Ok (Request log_request_parsed) /\
  Result (respond log_request_parsed) = VNil /\
  Error (respond log_request_parsed) = None /\
  has_result (respond log_request_parsed) || has_error (respond log_request_parsed)
    = false /\
  fst (HandleRequest log_request) =
    Ok (Some (JObject [("jsonrpc", JString "2.0");
                       ("id", JNumber (Float (Float64.of_Z 7)))]%string)) /\
  has_result (respond add_request_parsed) = true /\
  has_error (respond add_request_parsed) = false.
Proof.
  repeat split; vm_compute; reflexivity.
Qed.

(** ** Requests and notifications *)

Lemma find_field_raw (k f : string) :
  find_field raw_fields k = Some f ->
  f = "jsonrpc"%string \/ f = "method"%string \/ f = "params"%string \/ f = "id"%string.
Proof.
  unfold find_field. intros H.
  assert (In f raw_fields) as [Ha | [Hb | [Hc | [Hd | []]]]]; auto.
  destruct (find (String.eqb k) raw_fields) eqn:E.
  - inversion H. subst. now apply find_some in E.
  - now apply find_some in H.
Qed.

Lemma raw_store_ID (f : string) (v : json) (r r' : rawMessage) :
  In f raw_fields ->
  raw_store f v r = Ok r' ->
  raw_ID r' =
  if String.eqb f "id" then match v with JNull => None | _ => Some v end
  else raw_ID r.
Proof.
  intros [<- | [<- | [<- | [<- | []]]]]; unfold raw_store; simpl String.eqb; cbv iota.
  - destruct (store_string v _); [|discriminate]. intros H. now inversion H.
  - destruct (store_string v _); [|discriminate]. intros H. now inversion H.
  - intros H. now inversion H.
  - intros H. now inversion H.
Qed.

(** After [Unmarshal] the pointer [raw.ID] holds the value of the last
    member matched to the field, unless that value is [null], which
    leaves it [nil]. *)
Lemma decode_raw_ID (ms : list (string * json)) :
  forall r r',
    decode_members raw_fields raw_store ms r = Ok r' ->
    raw_ID r' =
    match last_member "id" ms with
    | Some JNull => None
    | Some j => Some j
    | None => raw_ID r
    end.
Proof.
  induction ms as [| [k v] rest IH]; intros r r'; simpl.
  - intros H. now inversion H.
  - destruct (find_field raw_fields k) as [f |] eqn:Hf.
    + destruct (raw_store f v r) as [r1 |] eqn:E; [|discriminate].
      cbn [bind]. intros H. rewrite (IH _ _ H).
      destruct (last_member "id" rest) as [x |]; [reflexivity|].
      assert (Hin : In f raw_fields).
      { destruct (find_field_raw _ _ Hf) as [-> | [-> | [-> | ->]]]; simpl; tauto. }
      rewrite (raw_store_ID _ _ _ _ Hin E).
      destruct (String.eqb f "id"); [|reflexivity].
      destruct v; reflexivity.
    + intros H. rewrite (IH _ _ H).
      destruct (last_member "id" rest); reflexivity.
Qed.

(** How a single message is classified, once it has read as an object
    with the version 2.0, a method and parameters that decode: by the
    value of the last member matched to [id].  A value other than [null]
    makes a request, with that value as id, unless the value does not
    decode (a number out of range), which is an invalid request; no
    such member, or the value [null], makes a notification. *)
Lemma ParseSingleMessage_by_id
  (data : bytes) (ms : list (string * json)) (raw : rawMessage) (params : value) :
  read data = Ok (JObject ms) ->
  decode_members raw_fields raw_store ms raw_zero = Ok raw ->
  raw_JSONRPC raw = JSONRPCVersion ->
  raw_Method raw <> EmptyString ->
  params_of raw = Ok params ->
  ParseSingleMessage data =
  match last_member "id" ms with
  | None | Some JNull =>
      Ok (Notification {| Notification_JSONRPC := raw_JSONRPC raw;
                          Notification_Method := raw_Method raw;
                          Notification_Params := params |})
  | Some j =>
      match to_value j with
      | Ok id => Ok (Request {| Request_JSONRPC := raw_JSONRPC raw;
                                Request_Method := raw_Method raw;
                                Request_Params := params;
                                Request_ID := id |})
      | Err _ => Err (invalid_request "Invalid ID field")
      end
  end.
Proof.
  intros Hread Hdec Hver Hmeth Hparams.
  unfold ParseSingleMessage, Unmarshal. rewrite Hread. cbn [bind decode_struct].
  rewrite Hdec, Hver, String.eqb_refl. cbn [negb].
  destruct (String.eqb_spec (raw_Method raw) ""); [contradiction|].
  fold (params_of raw). rewrite Hparams.
  rewrite (decode_raw_ID _ _ _ Hdec). cbn [raw_ID raw_zero].
  destruct (last_member "id" ms) as [[| b | x | str | elems | members] |];
    try reflexivity.
Qed.

(** An input that reads as an object is parsed as a single message. *)
Lemma ParseMessage_object (data : string) (ms : list (string * json)) :
  read (Text data) = Ok (JObject ms) ->
  ParseMessage data = ParseSingleMessage (Text data).
Proof.
  intros H. unfold ParseMessage. destruct data as [| c rest]; [reflexivity|].
  destruct (Ascii.eqb_spec c "["); [|reflexivity].
  subst c. simpl in H.
  destruct (parse (String "[" rest)) as [j |] eqn:E; [|discriminate].
  destruct (parse_bracket _ _ E) as [elems ->]. discriminate.
Qed.

(** ** Notifications *)

(** C5: for an input that the parser returns a notification for,
    dispatch returns no bytes ([nil] and no error), whatever the method
    called returns -- a result, an error, or the error of an unknown
    method.  The inputs with no member matched to [id] that read as an
    object with the version 2.0, a method and parameters that decode are
    such inputs. *)
Theorem C5_notification_no_response (data : string) :
  (forall notif,
      ParseMessage data = Ok (Notification notif) ->
      fst (HandleRequest data) = Ok None) /\
  (forall ms raw params,
      read (Text data) = Ok (JObject ms) ->
      decode_members raw_fields raw_store ms raw_zero = Ok raw ->
      raw_JSONRPC raw = JSONRPCVersion ->
      raw_Method raw <> EmptyString ->
      params_of raw = Ok params ->
      last_member "id" ms = None ->
      ParseMessage data =
        Ok (Notification {| Notification_JSONRPC := raw_JSONRPC raw;
                            Notification_Method := raw_Method raw;
                            Notification_Params := params |}) /\
      fst (HandleRequest data) = Ok None).
Proof.
  assert (Hn : forall notif,
             ParseMessage data = Ok (Notification notif) ->
             fst (HandleRequest data) = Ok None).
  { intros notif H. unfold HandleRequest. rewrite fst_seq, H, fst_seq. reflexivity. }
  split; [exact Hn|].
  intros ms raw params Hread Hdec Hver Hmeth Hparams Hid.
  assert (Hp : ParseMessage data =
               Ok (Notification {| Notification_JSONRPC := raw_JSONRPC raw;
                                   Notification_Method := raw_Method raw;
                                   Notification_Params := params |})).
  { rewrite (ParseMessage_object _ _ Hread).
    rewrite (ParseSingleMessage_by_id _ _ _ _ Hread Hdec Hver Hmeth Hparams), Hid.
    reflexivity. }
  split; [exact Hp | exact (Hn _ Hp)].
Qed.

Lemma C5_witness :
  ParseMessage unknown_notification =
    Ok (Notification {| Notification_JSONRPC := "2.0"; Notification_Method := "foo";
                        Notification_Params := VNil |}) /\
  fst (HandleRequest unknown_notification) = Ok None.
Proof.
  apply (proj2 (C5_notification_no_response unknown_notification)
           [("jsonrpc", JString "2.0"); ("method", JString "foo")]%string
           {| raw_JSONRPC := "2.0"; raw_Method := "foo";
              raw_Params := None; raw_ID := None |}
           VNil);
    try (vm_compute; reflexivity).
  vm_compute. discriminate.
Defined.

(** C1 fails on an id that is null: the text has the member [id], with
    the value [null]; the pointer [raw.ID] is [nil] after [Unmarshal], the
    parser returns a notification, and dispatch calls the method and
    returns no bytes.  (With the id 1 the same kind of input is a
    request, and with no id a notification, as the claim says.) *)
Theorem C1_null_id_is_notification :
  (exists ms,
      read (Text null_id_request) = Ok (JObject ms) /\
      option_map snd (find (fun m => String.eqb (fst m) "id") ms) = Some JNull /\
      option_map raw_ID (result_value (decode_members raw_fields raw_store ms raw_zero))
        = Some None) /\
  ParseSingleMessage (Text null_id_request) = Ok (Notification null_id_parsed) /\
  ParseMessage null_id_request = Ok (Notification null_id_parsed) /\
  fst (HandleRequest null_id_request) = Ok None /\
  ParseMessage add_request = Ok (Request add_request_parsed) /\
  ParseMessage unknown_notification =
    Ok (Notification {| Notification_JSONRPC := "2.0"; Notification_Method := "foo";
                        Notification_Params := VNil |}).
Proof.
  split.
  - eexists. repeat split; vm_compute; reflexivity.
  - repeat split; vm_compute; reflexivity.
Qed.

(** ** White space before a batch *)

(** White space before the bracket: the input is never read as a batch. *)
Lemma ParseMessage_space_before_bracket (ws rest : string) :
  all_space ws = true ->
  ws <> EmptyString ->
  exists err, ParseMessage (ws ++ String "[" rest) = Err (parse_error err).
Proof.
  intros Hws Hne. destruct ws as [| c ws]; [congruence|].
  assert (Hc : Ascii.eqb c "[" = false).
  { simpl in Hws. apply andb_prop in Hws. destruct Hws as [Hc _].
    destruct (Ascii.eqb_spec c "["); [subst c; discriminate Hc | reflexivity]. }
  unfold ParseMessage. cbn [append]. rewrite Hc.
  unfold ParseSingleMessage, Unmarshal, read.
  change (String c (ws ++ String "[" rest)) with (String c ws ++ String "[" rest)%string.
  rewrite (parse_all_space _ _ Hws).
  destruct (parse (String "[" rest)) as [j |] eqn:E.
  - destruct (parse_bracket _ _ E) as [elems ->]. eexists. reflexivity.
  - eexists. reflexivity.
Qed.

(** C9 fails on a batch after white space: the parser looks at the
    first byte only, takes the input for a single message, and
    [Unmarshal] cannot store the array into the struct; the same batch
    without the space is read as a batch. *)
Theorem C9_space_before_batch :
  (exists batch, read (Text spaced_batch) = Ok (JArray batch)) /\
  ParseMessage spaced_batch =
    Err (parse_error (UnmarshalTypeError "array")) /\
  fst (HandleRequest spaced_batch) =
    Ok (Some (JObject
                [("jsonrpc", JString "2.0");
                 ("error", JObject [("code", JNumber (Int ParseError));
                                    ("message", JString "Parse error");
                                    ("data", JString (Json.Error (UnmarshalTypeError "array")))]);
                 ("id", JNull)]%string)) /\
  ParseMessage one_element_batch = Ok (Batch [good_element_parsed]) /\
  fst (HandleRequest one_element_batch) =
    Ok (Some (JArray
                [JObject [("jsonrpc", JString "2.0");
                          ("result", JNumber (Float (Float64.of_Z 3)));
                          ("id", JNumber (Float (Float64.of_Z 1)))]%string])).
Proof.
  split; [eexists; vm_compute; reflexivity|].
  repeat split; vm_compute; reflexivity.
Qed.

(** ** The parameters of the calculator *)

Lemma Marshal_entries_inv (entries : list (string * value)) :
  forall ms,
    (fix all (l : list (string * value)) : result Json.error (list (string * json)) :=
       match l with
       | [] => Ok []
       | (k, x) :: r =>
           (d <- Marshal_value x;; ms <- all r;; Ok ((k, d) :: ms))%result
       end) entries = Ok ms ->
    Forall2 (fun e m => fst e = fst m /\ Marshal_value (snd e) = Ok (snd m)) entries ms.
Proof.
  induction entries as [| [k x] rest IH]; intros ms H.
  - inversion H. constructor.
  - destruct (Marshal_value x) as [d |] eqn:Ex; [|discriminate].
    cbn [bind] in H.
    match type of H with
    | context [bind ?m _] => destruct m as [ms' |] eqn:Er; [|discriminate]
    end.
    inversion H. subst. constructor; [split; [reflexivity | exact Ex] | now apply IH].
Qed.

Lemma Marshal_map_inv (entries : list (string * value)) (d : json) :
  Marshal_value (VMap entries) = Ok d ->
  exists ms,
    d = JObject ms /\
    Forall2 (fun e m => fst e = fst m /\ Marshal_value (snd e) = Ok (snd m)) entries ms.
Proof.
  intros H. cbn [Marshal_value] in H.
  match type of H with
  | context [bind ?m _] => destruct m as [ms |] eqn:E; [|discriminate]
  end.
  inversion H. exists ms. split; [reflexivity|]. now apply Marshal_entries_inv.
Qed.

(** Storing what [Marshal] wrote for a value into a field of type
    [float64]. *)
Lemma store_float64_marshalled (v : value) (d : json) (old : float64) :
  Marshal_value v = Ok d ->
  store_float64 d old =
  match v with
  | VFloat f => Ok f
  | VNil => Ok old
  | _ => Err (UnmarshalTypeError (describe d))
  end.
Proof.
  destruct v as [| b | f | s | l | m]; cbn [Marshal_value]; intros H.
  - inversion H. reflexivity.
  - inversion H. reflexivity.
  - destruct (Float64.is_finite f); inversion H. reflexivity.
  - inversion H. reflexivity.
  - match type of H with
    | context [bind ?m _] => destruct m; [|discriminate]
    end.
    inversion H. reflexivity.
  - match type of H with
    | context [bind ?m _] => destruct m; [|discriminate]
    end.
    inversion H. reflexivity.
Qed.

Lemma find_field_calc (k f : string) :
  find_field calc_fields k = Some f -> f = "a"%string \/ f = "b"%string.
Proof.
  unfold find_field. intros H.
  assert (In f calc_fields) as [Ha | [Hb | []]]; auto.
  destruct (find (String.eqb k) calc_fields) eqn:E.
  - inversion H. subst. now apply find_some in E.
  - now apply find_some in H.
Qed.

Lemma calc_store_marshalled (k f : string) (v : value) (d : json) (p : CalculatorParams) :
  find_field calc_fields k = Some f ->
  Marshal_value v = Ok d ->
  calc_store f d p =
  if numeric_or_nil v then Ok (store_entry k v p)
  else Err (UnmarshalTypeError (describe d)).
Proof.
  intros Hf Hm. unfold calc_store, store_entry. rewrite Hf.
  destruct (find_field_calc _ _ Hf) as [-> | ->]; simpl String.eqb; cbv iota;
    rewrite (store_float64_marshalled _ _ _ Hm);
    destruct v; simpl; try reflexivity; now destruct p.
Qed.

Lemma decode_members_marshalled (entries : list (string * value)) :
  forall ms p,
    Forall2 (fun e m => fst e = fst m /\ Marshal_value (snd e) = Ok (snd m)) entries ms ->
    (well_typed_params entries = true ->
     decode_members calc_fields calc_store ms p = Ok (params_after entries p)) /\
    (well_typed_params entries = false ->
     exists err, decode_members calc_fields calc_store ms p = Err err).
Proof.
  induction entries as [| [k v] rest IH]; intros ms p H; inversion H as [| e m l l' [Hk Hm] Hrest]; subst.
  - split; [reflexivity | discriminate].
  - destruct m as [k' d]. simpl in Hk, Hm. subst k'. simpl.
    destruct (find_field calc_fields k) as [f |] eqn:Hf.
    + rewrite (calc_store_marshalled _ _ _ _ _ Hf Hm).
      destruct (numeric_or_nil v) eqn:Hn; simpl.
      * apply IH. exact Hrest.
      * split; [discriminate | eexists; reflexivity].
    + replace (store_entry k v p) with p by (unfold store_entry; now rewrite Hf).
      apply IH. exact Hrest.
Qed.

(** A field that no member is matched to keeps its value. *)
Lemma params_after_missing_a (entries : list (string * value)) :
  forall p,
    field_missing "a" entries ->
    CalculatorParams_A (params_after entries p) = CalculatorParams_A p.
Proof.
  induction entries as [| [k v] rest IH]; intros p H; simpl; [reflexivity|].
  rewrite IH by (intros k' v' Hin; apply (H k' v'); now right).
  unfold store_entry. destruct (find_field calc_fields k) as [f |] eqn:Hf; [|reflexivity].
  destruct v; try reflexivity.
  destruct (String.eqb_spec f "a"); [|reflexivity].
  subst f. exfalso. apply (H k (VFloat f0)); [now left | exact Hf].
Qed.

Lemma params_after_missing_b (entries : list (string * value)) :
  forall p,
    field_missing "b" entries ->
    CalculatorParams_B (params_after entries p) = CalculatorParams_B p.
Proof.
  induction entries as [| [k v] rest IH]; intros p H; simpl; [reflexivity|].
  rewrite IH by (intros k' v' Hin; apply (H k' v'); now right).
  unfold store_entry. destruct (find_field calc_fields k) as [f |] eqn:Hf; [|reflexivity].
  destruct v; try reflexivity.
  destruct (String.eqb_spec f "a"); [reflexivity|].
  destruct (find_field_calc _ _ Hf) as [-> | ->]; [contradiction|].
  exfalso. apply (H k (VFloat f0)); [now left | exact Hf].
Qed.

Lemma callCalculatorMethod_cases
  (methodName : string) (method : CalculatorParams -> logged (result error float64))
  (params : value) (paramBytes : json) :
  Calculator.MethodByName methodName = Some method ->
  Marshal_value params = Ok paramBytes ->
  fst (callCalculatorMethod methodName params) =
  match params with
  | VNil => Err invalid_params_required
  | VMap entries =>
      if well_typed_params entries then
        match fst (method (params_after entries calc_zero)) with
        | Ok x => Ok (VFloat x)
        | Err err => Err err
        end
      else Err invalid_params_expected
  | _ => Err invalid_params_expected
  end.
Proof.
  intros Hmeth Hm. unfold callCalculatorMethod.
  destruct params as [| b | f | str | l | entries];
    [ reflexivity | reflexivity | | reflexivity | | ];
    rewrite Hm; unfold Unmarshal; cbn [read bind].
  - simpl in Hm. destruct (Float64.is_finite f); inversion Hm. reflexivity.
  - simpl in Hm.
    match type of Hm with
    | context [bind ?m _] => destruct m; [|discriminate]
    end.
    inversion Hm. reflexivity.
  - destruct (Marshal_map_inv _ _ Hm) as [ms [-> Hall]]. cbn [decode_struct].
    destruct (decode_members_marshalled entries ms calc_zero Hall) as [Hok Hbad].
    destruct (well_typed_params entries).
    + rewrite (Hok eq_refl), Hmeth, fst_seq.
      destruct (fst (method _)); reflexivity.
    + destruct (Hbad eq_refl) as [err ->]. reflexivity.
Qed.

Lemma callMethod_calculator (method : string) (params : value) (paramBytes : json) :
  In method calculator_methods ->
  Marshal_value params = Ok paramBytes ->
  fst (callMethod method params) =
  match params with
  | VNil => Err invalid_params_required
  | VMap entries =>
      if well_typed_params entries
      then calc_result method (params_after entries calc_zero)
      else Err invalid_params_expected
  | _ => Err invalid_params_expected
  end.
Proof.
  intros Hin Hm.
  destruct Hin as [<- | [<- | [<- | [<- | []]]]];
    unfold callMethod; simpl String.eqb; cbv iota.
  - rewrite (callCalculatorMethod_cases "Add" Calculator.Add _ _ eq_refl Hm).
    destruct params as [| | | | | entries]; try reflexivity;
      destruct (well_typed_params entries); reflexivity.
  - rewrite (callCalculatorMethod_cases "Subtract" Calculator.Subtract _ _ eq_refl Hm).
    destruct params as [| | | | | entries]; try reflexivity;
      destruct (well_typed_params entries); reflexivity.
  - rewrite (callCalculatorMethod_cases "Multiply" Calculator.Multiply _ _ eq_refl Hm).
    destruct params as [| | | | | entries]; try reflexivity;
      destruct (well_typed_params entries); reflexivity.
  - rewrite (callCalculatorMethod_cases "Divide" Calculator.Divide _ _ eq_refl Hm).
    destruct params as [| | | | | entries]; try reflexivity;
      destruct (well_typed_params entries); try reflexivity;
      unfold Calculator.Divide, calc_result; simpl String.eqb; cbv iota;
      destruct (Float64.eqb _ _); try reflexivity; rewrite fst_seq; reflexivity.
Qed.

Lemma calc_result_not_invalid_params (method : string) (p : CalculatorParams) (e : JSONRPCError) :
  calc_result method p = Err (RPCError e) -> Code e <> InvalidParams.
Proof.
  unfold calc_result.
  repeat match goal with
         | |- context [if ?c then _ else _] => destruct c
         end; try discriminate.
  intros H. inversion H. discriminate.
Qed.

(** What the four methods return, by the parameters. *)
Lemma calculator_params_cases
  (method : string) (params : value) (paramBytes : json) :
  In method calculator_methods ->
  Marshal_value params = Ok paramBytes ->
  (forall entries,
      params = VMap entries ->
      well_typed_params entries = true ->
      fst (callMethod method params) =
        calc_result method (params_after entries calc_zero) /\
      (field_missing "a" entries ->
       CalculatorParams_A (params_after entries calc_zero) = Float64.zero) /\
      (field_missing "b" entries ->
       CalculatorParams_B (params_after entries calc_zero) = Float64.zero) /\
      (method <> "divide"%string ->
       exists x, fst (callMethod method params) = Ok (VFloat x)) /\
      (method = "divide"%string ->
       field_missing "b" entries ->
       fst (callMethod method params) =
         Err (division_by_zero (CalculatorParams_A (params_after entries calc_zero))))) /\
  ((exists e, fst (callMethod method params) = Err (RPCError e) /\ Code e = InvalidParams)
   <-> refused_params params).
Proof.
  intros Hin Hm. pose proof (callMethod_calculator _ _ _ Hin Hm) as Hc. split.
  - intros entries -> Hwt. rewrite Hwt in Hc. rewrite Hc.
    split; [reflexivity|].
    split; [intros H; now rewrite (params_after_missing_a _ _ H)|].
    split; [intros H; now rewrite (params_after_missing_b _ _ H)|].
    split.
    + intros Hnd. unfold calc_result.
      destruct Hin as [<- | [<- | [<- | [<- | []]]]]; simpl String.eqb; cbv iota;
        try (eexists; reflexivity).
      now contradiction Hnd.
    + intros -> Hb. unfold calc_result. simpl String.eqb. cbv iota.
      rewrite (params_after_missing_b _ _ Hb). reflexivity.
  - rewrite Hc. unfold refused_params.
    destruct params as [| b | f | str | l | entries];
      try (split; [intros _; exact I | intros _; eexists; split; reflexivity]).
    destruct (well_typed_params entries).
    + split; [|discriminate]. intros [e [He Hcode]].
      now apply calc_result_not_invalid_params in He.
    + split; [reflexivity | intros _; eexists; split; reflexivity].
Qed.

(** ** The parameters of a request *)

Lemma respond_of_calculator (data : string) (req : JSONRPCRequest) :
  ParseMessage data = Ok (Request req) ->
  In (Request_Method req) calculator_methods ->
  respond req =
  match Request_Params req with
  | VNil => CreateErrorResponse
              {| Code := InvalidParams; Message := "Invalid params";
                 Data := VString (js "Parameters required: {'a': number, 'b': number}") |}
              (Request_ID req)
  | VMap entries =>
      if well_typed_params entries then
        match calc_result (Request_Method req) (params_after entries calc_zero) with
        | Ok x => CreateSuccessResponse x (Request_ID req)
        | Err _ =>
            CreateErrorResponse
              {| Code := -32000; Message := "Division by zero";
                 Data := VString ("Cannot divide "
                                  ++ Strconv.FormatF
                                       (CalculatorParams_A (params_after entries calc_zero))
                                  ++ " by zero") |}
              (Request_ID req)
        end
      else CreateErrorResponse
             {| Code := InvalidParams; Message := "Invalid params";
                Data := VString (js "Expected parameters: {'a': number, 'b': number}") |}
             (Request_ID req)
  | _ => CreateErrorResponse
           {| Code := InvalidParams; Message := "Invalid params";
              Data := VString (js "Expected parameters: {'a': number, 'b': number}") |}
           (Request_ID req)
  end.
Proof.
  intros Hp Hin. destruct (request_params_marshal _ _ Hp) as [paramBytes Hm].
  rewrite respond_cases, (callMethod_calculator _ _ _ Hin Hm).
  destruct (Request_Params req) as [| | | | | entries]; try reflexivity.
  destruct (well_typed_params entries); [|reflexivity].
  unfold calc_result.
  repeat match goal with
         | |- context [if ?c then _ else _] => destruct c
         end; reflexivity.
Qed.

(** C10 as amended: for a request for add, subtract, multiply or
    divide whose parameters are an object in which every member matched
    to [a] or [b] (by its exact name, or else by its name with the case
    folded) is a number or null, decoding succeeds: a field that no
    member is matched to is 0 and the other members are skipped.  add,
    subtract and multiply then answer with a result; divide answers with
    one unless [b] is zero -- as it is when no member sets it -- where it
    answers with the error -32000 of a division by zero, which is not
    InvalidParams.  The response carries InvalidParams exactly when the
    parameters are [nil] (absent or null), are not an object, or have a
    member matched to [a] or [b] that is neither a number nor null. *)
Theorem C10_missing_params_default_to_zero (data : string) (req : JSONRPCRequest) :
  ParseMessage data = Ok (Request req) ->
  In (Request_Method req) calculator_methods ->
  (forall entries,
      Request_Params req = VMap entries ->
      well_typed_params entries = true ->
      fst (callMethod (Request_Method req) (Request_Params req)) =
        calc_result (Request_Method req) (params_after entries calc_zero) /\
      (field_missing "a" entries ->
       CalculatorParams_A (params_after entries calc_zero) = Float64.zero) /\
      (field_missing "b" entries ->
       CalculatorParams_B (params_after entries calc_zero) = Float64.zero) /\
      (Request_Method req <> "divide"%string ->
       exists x, respond req = CreateSuccessResponse (VFloat x) (Request_ID req)) /\
      (Request_Method req = "divide"%string ->
       field_missing "b" entries ->
       exists data,
         respond req =
           CreateErrorResponse
             {| Code := -32000; Message := "Division by zero"; Data := data |}
             (Request_ID req))) /\
  ((exists e, Error (respond req) = Some e /\ Code e = InvalidParams)
   <-> refused_params (Request_Params req)).
Proof.
  intros Hp Hin. destruct (request_params_marshal _ _ Hp) as [paramBytes Hm].
  destruct (calculator_params_cases _ _ _ Hin Hm) as [Hok Hbad]. split.
  - intros entries He Hwt.
    destruct (Hok entries He Hwt) as [H1 [H2 [H3 [H4 H5]]]].
    repeat split; try assumption.
    + intros Hnd. destruct (H4 Hnd) as [x Hx]. exists x. now rewrite respond_cases, Hx.
    + intros Hd Hb. eexists. rewrite respond_cases, (H5 Hd Hb). reflexivity.
  - rewrite <- Hbad. rewrite respond_cases.
    destruct (fst (callMethod _ _)) as [v | [e | msg]]; simpl.
    + split; intros [e [He _]]; discriminate.
    + split; intros [e' [He Hc]]; inversion He; subst; eexists; split;
        try reflexivity; assumption.
    + split; intros [e [He Hc]]; [inversion He; subst; discriminate Hc | discriminate].
Qed.

Lemma C10_witness :
  ParseMessage add_missing_b_request = Ok (Request add_missing_b_parsed) /\
  fst (callMethod "add" (Request_Params add_missing_b_parsed)) =
    Ok (VFloat (Float64.of_Z 5)) /\
  CalculatorParams_B
    (params_after [("a", VFloat (Float64.of_Z 5)); ("extra", VBool true)]%string calc_zero)
    = Float64.zero.
Proof.
  assert (Hp : ParseMessage add_missing_b_request = Ok (Request add_missing_b_parsed))
    by (vm_compute; reflexivity).
  assert (Hin : In (Request_Method add_missing_b_parsed) calculator_methods)
    by (simpl; tauto).
  destruct (proj1 (C10_missing_params_default_to_zero _ _ Hp Hin)
              [("a", VFloat (Float64.of_Z 5)); ("extra", VBool true)]%string
              eq_refl)
    as [H1 [_ [H3 _]]]; [vm_compute; reflexivity|].
  split; [exact Hp|]. split.
  - etransitivity; [exact H1 | vm_compute; reflexivity].
  - apply H3. intros k v [Hkv | [Hkv | []]] Hf; inversion Hkv; subst;
      vm_compute in Hf; discriminate.
Defined.

(** C10 as stated fails for divide: the parameters are an object
    without [b], decoding succeeds, and the method returns the error of a
    division by zero, not a result. *)
Lemma C10_counterexample :
  ParseMessage divide_missing_b_request = Ok (Request divide_missing_b_parsed) /\
  respond divide_missing_b_parsed =
    CreateErrorResponse
      {| Code := -32000; Message := "Division by zero";
         Data := VString "Cannot divide 5.000000 by zero" |}
      (VFloat (Float64.of_Z 1)) /\
  has_result (respond divide_missing_b_parsed) = false.
Proof.
  repeat split; vm_compute; reflexivity.
Qed.

(** * Further properties of the parser *)

Lemma ParseSingleMessage_well_formed (data : bytes) (m : message) :
  ParseSingleMessage data = Ok m -> well_formed_single m.
Proof.
  unfold ParseSingleMessage.
  destruct (Unmarshal _ data raw_zero) as [raw | err]; [|discriminate].
  destruct (String.eqb_spec (raw_JSONRPC raw) JSONRPCVersion) as [Hv | Hv];
    [|discriminate].
  cbn [negb].
  destruct (String.eqb_spec (raw_Method raw) "") as [Hm | Hm]; [discriminate|].
  destruct (match raw_Params raw with Some _ => _ | None => _ end); [|discriminate].
  destruct (raw_ID raw).
  - destruct (Unmarshal_interface _); [|discriminate].
    intros H. inversion H. split; assumption.
  - intros H. inversion H. split; assumption.
Qed.

Lemma parse_batch_inv (batch : list RawMessage) :
  forall messages parsed,
    parse_batch batch messages = Ok parsed ->
    exists news,
      parsed = messages ++ news /\
      Forall2 (fun raw msg => ParseSingleMessage (Raw raw) = Ok msg) batch news.
Proof.
  induction batch as [| raw rest IH]; intros messages parsed; simpl.
  - intros H. inversion H. exists []. split; [now rewrite app_nil_r | constructor].
  - destruct (ParseSingleMessage (Raw raw)) as [msg |] eqn:E; [|discriminate].
    intros H. destruct (IH _ _ H) as [news [-> Hall]].
    exists (msg :: news). split; [now rewrite <- app_assoc | now constructor].
Qed.

(** What the parser returned, read backwards. *)
Lemma ParseMessage_inv (data : string) (m : message) :
  ParseMessage data = Ok m ->
  (exists rest batch messages,
      data = String "[" rest /\
      read (Text data) = Ok (JArray batch) /\
      m = Batch messages /\
      Forall2 (fun raw msg => ParseSingleMessage (Raw raw) = Ok msg) batch messages)
  \/ (String.prefix "[" data = false /\ ParseSingleMessage (Text data) = Ok m).
Proof.
  unfold ParseMessage. destruct data as [| c rest].
  - intros H. right. split; [reflexivity | exact H].
  - destruct (Ascii.eqb_spec c "[") as [-> | Hc].
    + intros H. left. unfold Unmarshal in H.
      destruct (read (Text (String "[" rest))) as [j |] eqn:Ej; [|discriminate].
      assert (Hj : exists batch, j = JArray batch).
      { unfold read in Ej.
        destruct (parse (String "[" rest)) as [j' |] eqn:E; [|discriminate].
        inversion Ej. subst. now apply parse_bracket in E. }
      destruct Hj as [batch ->]. cbn [bind store_raw_slice] in H.
      destruct (parse_batch batch []) as [parsed |] eqn:Ep; [|discriminate].
      cbn [bind] in H. inversion H. subst m.
      destruct (parse_batch_inv _ _ _ Ep) as [news [-> Hall]].
      exists rest, batch, news. repeat split; assumption.
    + intros H. right. split; [|exact H].
      cbn [String.prefix]. destruct (ascii_dec "[" c); [congruence | reflexivity].
Qed.

(** X1: a message that the parser returns for an input is a batch
    exactly when the first byte of the input is an opening bracket.  The
    batch then holds one message for each element of the array the input
    reads as, in the order of the elements, each being what the parser
    returns for that element alone; otherwise the message is what the
    parser of a single message returns for the input. *)
Theorem X1_batch_has_one_message_per_element (data : string) (m : message) :
  ParseMessage data = Ok m ->
  (String.prefix "[" data = true <-> exists messages, m = Batch messages) /\
  (forall messages,
      m = Batch messages ->
      exists batch,
        read (Text data) = Ok (JArray batch) /\
        List.length messages = List.length batch /\
        Forall2 (fun raw msg => ParseSingleMessage (Raw raw) = Ok msg) batch messages) /\
  (String.prefix "[" data = false -> ParseSingleMessage (Text data) = Ok m).
Proof.
  intros H.
  destruct (ParseMessage_inv _ _ H)
    as [[rest [batch [messages [-> [Hr [-> Hall]]]]]] | [Hp Hs]].
  - split; [split; [intros _; now exists messages | intros _; now destruct rest]|].
    split; [|destruct rest; discriminate].
    intros ms Hms. inversion Hms. subst ms. exists batch.
    split; [exact Hr|]. split; [|exact Hall].
    symmetry. clear -Hall. induction Hall; simpl; congruence.
  - pose proof (ParseSingleMessage_well_formed _ _ Hs) as Hw.
    split; [split|split].
    + rewrite Hp. discriminate.
    + intros [ms ->]. contradiction.
    + intros ms ->. contradiction.
    + intros _. exact Hs.
Qed.

Lemma X1_witness :
  exists batch,
    read (Text mixed_batch) = Ok (JArray batch) /\
    List.length mixed_batch_parsed = List.length batch /\
    Forall2 (fun raw msg => ParseSingleMessage (Raw raw) = Ok msg) batch mixed_batch_parsed.
Proof.
  assert (H : ParseMessage mixed_batch = Ok (Batch mixed_batch_parsed))
    by (vm_compute; reflexivity).
  exact (proj1 (proj2 (X1_batch_has_one_message_per_element _ _ H)) _ eq_refl).
Defined.

Lemma Forall2_well_formed (batch : list RawMessage) (messages : list message) :
  Forall2 (fun raw msg => ParseSingleMessage (Raw raw) = Ok msg) batch messages ->
  Forall well_formed_single messages.
Proof.
  induction 1 as [| raw msg batch messages H _ IH]; constructor; [|exact IH].
  now apply ParseSingleMessage_well_formed in H.
Qed.

(** X2: every request and notification that the parser returns, alone
    or in a batch, has the version 2.0 and a method that is not empty, and
    no element of a batch is itself a batch. *)
Theorem X2_parsed_messages_are_well_formed (data : string) (m : message) :
  ParseMessage data = Ok m ->
  match m with
  | Batch messages => Forall well_formed_single messages
  | _ => well_formed_single m
  end.
Proof.
  intros H.
  destruct (ParseMessage_inv _ _ H)
    as [[rest [batch [messages [_ [_ [-> Hall]]]]]] | [_ Hs]].
  - now apply Forall2_well_formed in Hall.
  - pose proof (ParseSingleMessage_well_formed _ _ Hs) as Hw.
    destruct m; [exact Hw | exact Hw | contradiction].
Qed.

Lemma X2_witness : Forall well_formed_single mixed_batch_parsed.
Proof.
  apply (X2_parsed_messages_are_well_formed mixed_batch (Batch mixed_batch_parsed)).
  vm_compute. reflexivity.
Defined.

Lemma ParseSingleMessage_parser_error (data : bytes) (e : JSONRPCError) :
  ParseSingleMessage data = Err e -> parser_error e.
Proof.
  unfold ParseSingleMessage, parser_error.
  destruct (Unmarshal _ data raw_zero) as [raw | err].
  2: { intros H. inversion H. split; [left; split; reflexivity | eexists; reflexivity]. }
  destruct (negb _).
  { intros H. inversion H. split; [right; split; reflexivity | eexists; reflexivity]. }
  destruct (String.eqb _ _).
  { intros H. inversion H. split; [right; split; reflexivity | eexists; reflexivity]. }
  destruct (match raw_Params raw with Some _ => _ | None => _ end).
  2: { intros H. inversion H. split; [right; split; reflexivity | eexists; reflexivity]. }
  destruct (raw_ID raw); [|discriminate].
  destruct (Unmarshal_interface _); [discriminate|].
  intros H. inversion H. split; [right; split; reflexivity | eexists; reflexivity].
Qed.

Lemma parse_batch_parser_error (batch : list RawMessage) :
  forall messages e, parse_batch batch messages = Err e -> parser_error e.
Proof.
  induction batch as [| raw rest IH]; intros messages e; simpl; [discriminate|].
  destruct (ParseSingleMessage (Raw raw)) eqn:E.
  - apply IH.
  - intros H. inversion H. subst. now apply ParseSingleMessage_parser_error in E.
Qed.

Lemma ParseMessage_parser_error (data : string) (e : JSONRPCError) :
  ParseMessage data = Err e -> parser_error e.
Proof.
  unfold ParseMessage. destruct data as [| c rest].
  - apply ParseSingleMessage_parser_error.
  - destruct (Ascii.eqb c "["); [|apply ParseSingleMessage_parser_error].
    destruct (Unmarshal store_raw_slice _ _) as [batch | err].
    + destruct (parse_batch batch []) eqn:E; simpl; [discriminate|].
      intros H. inversion H. subst. now apply parse_batch_parser_error in E.
    + intros H. inversion H.
      split; [left; split; reflexivity | eexists; reflexivity].
Qed.

(** X3: every error of the parser is one of two: the code -32700 with
    the message "Parse error", or the code -32600 with the message
    "Invalid Request"; its data is a string.  An input that does not read
    as JSON gets the first. *)
Theorem X3_parser_errors (data : string) :
  (forall e, ParseMessage data = Err e -> parser_error e) /\
  (parse data = None ->
   ParseMessage data = Err (parse_error SyntaxError)).
Proof.
  split.
  - apply ParseMessage_parser_error.
  - intros Hp. unfold ParseMessage, ParseSingleMessage, Unmarshal, read.
    destruct data as [| c rest]; rewrite Hp; [reflexivity|].
    destruct (Ascii.eqb c "["); reflexivity.
Qed.

Lemma X3_witness : ParseMessage (js "{'jsonrpc':") = Err (parse_error SyntaxError).
Proof.
  apply (proj2 (X3_parser_errors (js "{'jsonrpc':"))). vm_compute. reflexivity.
Defined.

(** * Further properties of the server *)

Lemma calculator_method_outcome
  (name : string) (method : CalculatorParams -> logged (result error float64))
  (p : CalculatorParams) :
  Calculator.MethodByName name = Some method ->
  (exists x, fst (method p) = Ok x) \/
  (name = "Divide"%string /\
   fst (method p) = Err (division_by_zero (CalculatorParams_A p))).
Proof.
  unfold Calculator.MethodByName.
  destruct (String.eqb name "Add");
    [intros H; inversion H; left; eexists; reflexivity|].
  destruct (String.eqb name "Subtract");
    [intros H; inversion H; left; eexists; reflexivity|].
  destruct (String.eqb name "Multiply");
    [intros H; inversion H; left; eexists; reflexivity|].
  destruct (String.eqb_spec name "Divide"); [|discriminate].
  intros H. inversion H. unfold Calculator.Divide.
  destruct (Float64.eqb _ _).
  - right. split; [assumption | reflexivity].
  - left. eexists. reflexivity.
Qed.

Lemma callCalculatorMethod_outcome
  (name : string) (method : CalculatorParams -> logged (result error float64))
  (params : value) :
  Calculator.MethodByName name = Some method ->
  calculator_outcome name (fst (callCalculatorMethod name params)).
Proof.
  intros Hm.
  assert (Hinv : forall text,
             calculator_outcome name
               (fst (ret (Err (rpc_error InvalidParams "Invalid params" text))))).
  { intros text. split; [eexists; reflexivity | left; split; reflexivity]. }
  unfold callCalculatorMethod.
  destruct params; [apply Hinv | | | | |];
    (destruct (Marshal_value _); [|apply Hinv];
     destruct (Unmarshal _ _ _) as [calcParams |]; [|apply Hinv];
     rewrite Hm, fst_seq;
     destruct (calculator_method_outcome name method calcParams Hm)
       as [[x ->] | [Hn ->]];
     [exact I |
      split; [eexists; reflexivity
             | right; split; [reflexivity | split; [reflexivity | exact Hn]]]]).
Qed.

Lemma callNotificationMethod_outcome (params : value) :
  fst (callNotificationMethod "Log" params) = Ok VNil \/
  exists text,
    fst (callNotificationMethod "Log" params) =
    Err (rpc_error InvalidParams "Invalid params" text).
Proof.
  unfold callNotificationMethod. cbn [String.eqb Ascii.eqb Bool.eqb].
  destruct params; [right; eexists; reflexivity | | | | |];
    (destruct (Marshal_value _); [|right; eexists; reflexivity];
     destruct (Unmarshal _ _ _); [left; reflexivity | right; eexists; reflexivity]).
Qed.

(** What [callMethod] returns, method by method. *)
Lemma callMethod_outcome (method : string) (params : value) :
  method_outcome method (fst (callMethod method params)).
Proof.
  assert (Hcalc : forall name m,
             Calculator.MethodByName name = Some m ->
             In method calculator_methods ->
             (name = "Divide"%string -> method = "divide"%string) ->
             method_outcome method (fst (callCalculatorMethod name params))).
  { intros name m Hm Hin Hdiv.
    assert (Hk : In method known_methods /\ method <> "getInfo"%string).
    { unfold calculator_methods, known_methods in *. simpl in *.
      destruct Hin as [<- | [<- | [<- | [<- | []]]]];
        (split; [tauto | discriminate]). }
    pose proof (callCalculatorMethod_outcome name m params Hm) as Ho.
    destruct (fst (callCalculatorMethod name params)) as [[| | x | | |] | [e |]];
      try contradiction; simpl.
    - exact Hin.
    - destruct Ho as [Hd [[Hc Hmsg] | [Hc [Hmsg Hn]]]].
      + split; [exact Hd|]. right. left. tauto.
      + split; [exact Hd|]. right. right. auto. }
  unfold callMethod.
  destruct (String.eqb_spec method "add") as [-> | H1].
  { apply (Hcalc "Add"%string Calculator.Add);
      [reflexivity | simpl; tauto | discriminate]. }
  destruct (String.eqb_spec method "subtract") as [-> | H2].
  { apply (Hcalc "Subtract"%string Calculator.Subtract);
      [reflexivity | simpl; tauto | discriminate]. }
  destruct (String.eqb_spec method "multiply") as [-> | H3].
  { apply (Hcalc "Multiply"%string Calculator.Multiply);
      [reflexivity | simpl; tauto | discriminate]. }
  destruct (String.eqb_spec method "divide") as [-> | H4].
  { apply (Hcalc "Divide"%string Calculator.Divide);
      [reflexivity | simpl; tauto | reflexivity]. }
  destruct (String.eqb_spec method "getInfo") as [-> | H5].
  { simpl. split; reflexivity. }
  destruct (String.eqb_spec method "log") as [-> | H6].
  { destruct (callNotificationMethod_outcome params) as [-> | [text ->]]; simpl.
    - reflexivity.
    - split; [eexists; reflexivity|]. right. left.
      repeat split; [tauto | discriminate]. }
  simpl. split; [eexists; reflexivity|]. left.
  repeat split. intros [H | [H | [H | [H | [H | [H | []]]]]]]; congruence.
Qed.

Lemma respond_facts (req : JSONRPCRequest) :
  Response_JSONRPC (respond req) = JSONRPCVersion /\
  (forall e, Error (respond req) = Some e -> exists text, Data e = VString text) /\
  match Result (respond req) with
  | VFloat _ => True
  | v => finite_value v = true
  end.
Proof.
  rewrite respond_cases.
  pose proof (callMethod_outcome (Request_Method req) (Request_Params req)) as Ho.
  destruct (fst (callMethod _ _)) as [v | [e | msg]]; simpl in *.
  - split; [reflexivity|]. split; [discriminate|].
    destruct v; try reflexivity; try exact I; apply Ho.
  - split; [reflexivity|]. split; [|reflexivity].
    intros e' H. inversion H. subst e'. apply Ho.
  - contradiction.
Qed.

(** X4: the response to a request for any method but [log] carries a
    result or an error, and not both. *)
Theorem X4_one_of_result_and_error (req : JSONRPCRequest) :
  Request_Method req <> "log"%string ->
  xorb (has_result (respond req)) (has_error (respond req)) = true.
Proof.
  intros Hlog.
  pose proof (respond_not_both req) as Hnot.
  destruct (has_result (respond req)) eqn:Hr, (has_error (respond req)) eqn:He;
    try reflexivity; try discriminate Hnot.
  exfalso. apply Hlog.
  apply (callMethod_nil_is_log _ (Request_Params req)).
  apply respond_neither. rewrite Hr, He. reflexivity.
Qed.

Lemma X4_witness :
  xorb (has_result (respond divide_by_zero_parsed))
       (has_error (respond divide_by_zero_parsed)) = true.
Proof.
  apply (X4_one_of_result_and_error divide_by_zero_parsed). discriminate.
Defined.

(** X5: the error of a response to a request has the code -32601
    exactly when the method is none of the six that the server knows, and
    then its message is "Method not found" and its data names the method;
    otherwise the code is -32602, or -32000 for [divide] only.  The code
    -32603 (internal error) is never returned, and the data of the error
    is always a string. *)
Theorem X5_codes_of_errors (req : JSONRPCRequest) :
  (~ In (Request_Method req) known_methods ->
   respond req =
   CreateErrorResponse
     {| Code := MethodNotFound; Message := "Method not found";
        Data := VString ("Method '" ++ Request_Method req ++ "' is not available") |}
     (Request_ID req)) /\
  (forall e,
      Error (respond req) = Some e ->
      (Code e = MethodNotFound <-> ~ In (Request_Method req) known_methods) /\
      (Code e = MethodNotFound \/ Code e = InvalidParams \/ Code e = -32000) /\
      (Code e = -32000 -> Request_Method req = "divide"%string) /\
      Code e <> InternalError /\
      exists text, Data e = VString text).
Proof.
  split.
  - intros Hun. rewrite respond_cases. unfold callMethod.
    repeat match goal with
           | |- context [String.eqb (Request_Method req) ?s] =>
               destruct (String.eqb_spec (Request_Method req) s) as [E | _];
               [exfalso; apply Hun; rewrite E; simpl; tauto |]
           end.
    reflexivity.
  - intros e He. rewrite respond_cases in He.
    pose proof (callMethod_outcome (Request_Method req) (Request_Params req)) as Ho.
    destruct (fst (callMethod _ _)) as [v | [e' | msg]]; simpl in *;
      [discriminate | | contradiction].
    inversion He. subst e'. clear He.
    destruct Ho as [Hd [[Hc [_ Hun]] | [[Hc [_ [Hin _]]] | [Hc [_ Hm]]]]];
      rewrite Hc; unfold MethodNotFound, InvalidParams, InternalError.
    + repeat split; auto; discriminate.
    + repeat split; auto; try discriminate. intros Hun. now exfalso.
    + repeat split; auto; try discriminate.
      intros Hun. exfalso. apply Hun. rewrite Hm. simpl. tauto.
Qed.

Lemma X5_witness :
  respond unknown_method_parsed =
  CreateErrorResponse
    {| Code := MethodNotFound; Message := "Method not found";
       Data := VString "Method 'power' is not available" |}
    (VString "x").
Proof.
  apply (proj1 (X5_codes_of_errors unknown_method_parsed)).
  simpl. intros [H | [H | [H | [H | [H | [H | []]]]]]]; discriminate H.
Defined.

(** ** What dispatch returns *)

Lemma HandleRequest_reply (data : string) :
  fst (HandleRequest data) =
  match ParseMessage data with
  | Err err => marshalled (Marshal_response (CreateErrorResponse err VNil))
  | Ok (Request req) => marshalled (Marshal_response (respond req))
  | Ok (Notification _) => Ok None
  | Ok (Batch messages) =>
      match map respond (requests_of messages) with
      | [] => Ok None
      | responses => Marshal_batch responses
      end
  end.
Proof.
  unfold HandleRequest. rewrite fst_seq.
  destruct (ParseMessage data) as [[req | notif | messages] | err].
  - rewrite fst_seq. reflexivity.
  - rewrite fst_seq. reflexivity.
  - apply handleBatchRequest_responses.
  - reflexivity.
Qed.

Lemma marshalled_not_none (r : result Json.error json) : marshalled r <> Ok None.
Proof. destruct r; discriminate. Qed.

Lemma requests_of_In (messages : list message) (req : JSONRPCRequest) :
  In req (requests_of messages) <-> In (Request req) messages.
Proof.
  induction messages as [| [r | n | ms] rest IH]; simpl; [tauto | | |].
  - rewrite IH. split; intros [H | H]; auto; left; congruence.
  - rewrite IH. split; [auto | intros [H | H]; [discriminate | auto]].
  - rewrite IH. split; [auto | intros [H | H]; [discriminate | auto]].
Qed.

(** X6: dispatch returns no bytes and no error exactly for an input
    that parses and holds no request: a notification, or a batch with
    no request in it -- the empty array is one.  An input that does not
    parse, and one with a request, are answered. *)
Theorem X6_no_reply (data : string) :
  fst (HandleRequest data) = Ok None <->
  exists m, ParseMessage data = Ok m /\ requests_of (messages_of m) = [].
Proof.
  rewrite HandleRequest_reply.
  destruct (ParseMessage data) as [[req | notif | messages] | err].
  - split; [intros H; now apply marshalled_not_none in H|].
    intros [m [H Hr]]. inversion H. subst m. discriminate.
  - split; [|reflexivity]. intros _. eexists. split; reflexivity.
  - destruct (requests_of messages) as [| r rest] eqn:E; simpl.
    + split; [|reflexivity]. intros _. eexists. split; [reflexivity | exact E].
    + split; [intros H; now apply marshalled_not_none in H|].
      intros [m [H Hr]]. inversion H. subst m. simpl in Hr. congruence.
  - split; [intros H; now apply marshalled_not_none in H|].
    intros [m [H _]]. discriminate.
Qed.

Lemma X6_witness : fst (HandleRequest (js "[]")) = Ok None.
Proof.
  apply (proj2 (X6_no_reply (js "[]"))).
  exists (Batch []). split; vm_compute; reflexivity.
Defined.

(** ** When a response cannot be written *)

Lemma Marshal_omitempty_finite (name : string) (v : value) :
  finite_value v = true -> exists ms, Marshal_interface_omitempty name v = Ok ms.
Proof.
  intros Hfin. unfold Marshal_interface_omitempty.
  destruct (Marshal_value_finite v Hfin) as [d Hd].
  destruct v; try (eexists; reflexivity); rewrite Hd; eexists; reflexivity.
Qed.

Lemma Marshal_error_string (e : JSONRPCError) :
  (exists text, Data e = VString text) -> exists d, Marshal_error e = Ok d.
Proof.
  intros [text H]. unfold Marshal_error. rewrite H. eexists. reflexivity.
Qed.

(** A response with an id of finite floats and an error with a string
    for data is written unless its result is a float that is not
    finite. *)
Lemma Marshal_response_fails (r : JSONRPCResponse) :
  finite_value (Response_ID r) = true ->
  (forall e, Error r = Some e -> exists text, Data e = VString text) ->
  match Result r with VFloat _ => True | v => finite_value v = true end ->
  (exists e, Marshal_response r = Err e) <->
  (exists x, Result r = VFloat x /\ Float64.is_finite x = false).
Proof.
  intros Hid Herr Hres.
  destruct (Marshal_value_finite _ Hid) as [id Eid].
  assert (Herr' : exists err,
             match Error r with
             | Some e => bind (Marshal_error e) (fun d => Ok [("error"%string, d)])
             | None => Ok []
             end = Ok err :> result Json.error (list (string * json))).
  { destruct (Error r) as [e |]; [|eexists; reflexivity].
    destruct (Marshal_error_string e (Herr e eq_refl)) as [d ->].
    eexists. reflexivity. }
  destruct Herr' as [err Eerr].
  assert (Hok : forall res,
             Marshal_interface_omitempty "result" (Result r) = Ok res ->
             exists d, Marshal_response r = Ok d).
  { intros res Eres. unfold Marshal_response. rewrite Eres. cbn [bind].
    rewrite Eerr. cbn [bind]. rewrite Eid. eexists. reflexivity. }
  assert (Hfinite : finite_value (Result r) = true ->
                    ((exists e, Marshal_response r = Err e) <->
                     (exists x, Result r = VFloat x /\ Float64.is_finite x = false))).
  { intros Hfin. destruct (Marshal_omitempty_finite "result" _ Hfin) as [res Eres].
    destruct (Hok res Eres) as [d Ed]. rewrite Ed.
    split; [intros [e H]; discriminate|].
    intros [x [Hx Hinf]]. rewrite Hx in Hfin. simpl in Hfin. congruence. }
  destruct (Result r) as [| b | x | str | elems | entries] eqn:Er;
    try (apply Hfinite; exact Hres).
  destruct (Float64.is_finite x) eqn:Ex; [apply Hfinite; exact Ex|].
  split; [intros _; now exists x|].
  intros _. unfold Marshal_response. rewrite Er.
  cbn [Marshal_interface_omitempty Marshal_value]. rewrite Ex.
  eexists. reflexivity.
Qed.

Lemma Marshal_responses_fails (rs : list JSONRPCResponse) :
  (exists e, Marshal_responses rs = Err e) <->
  (exists r, In r rs /\ exists e, Marshal_response r = Err e).
Proof.
  induction rs as [| r rest IH]; simpl.
  - split; [intros [e H]; discriminate | intros [r [[] _]]].
  - destruct (Marshal_response r) as [d | e] eqn:Er; cbn [bind].
    + destruct (Marshal_responses rest) as [ds | e'] eqn:Erest; cbn [bind].
      * split; [intros [e H]; discriminate|].
        intros [r' [[<- | Hin] [e He]]]; [congruence|].
        destruct (proj2 IH) as [e'' H]; [|discriminate].
        exists r'. split; [exact Hin | now exists e].
      * split; [|intros _; eexists; reflexivity].
        intros _. destruct (proj1 IH) as [r' [Hin He]]; [eexists; reflexivity|].
        exists r'. split; [now right | exact He].
    + split; [|intros _; eexists; reflexivity].
      intros _. exists r. split; [now left | exists e; exact Er].
Qed.

Lemma parsed_request_finite (data : string) (m : message) (req : JSONRPCRequest) :
  ParseMessage data = Ok m ->
  In (Request req) (messages_of m) ->
  finite_value (Request_Params req) = true /\ finite_value (Request_ID req) = true.
Proof.
  intros Hp Hin. apply ParseMessage_finite in Hp.
  assert (H : message_finite (Request req) = true).
  { destruct m as [r | n | ms]; simpl in Hin.
    - destruct Hin as [<- | []]. exact Hp.
    - destruct Hin as [H | []]. discriminate.
    - simpl in Hp. rewrite forallb_forall in Hp. now apply Hp. }
  simpl in H. now apply andb_true_iff in H.
Qed.

Lemma respond_fails (req : JSONRPCRequest) :
  finite_value (Request_ID req) = true ->
  (exists e, Marshal_response (respond req) = Err e) <->
  (exists x, Result (respond req) = VFloat x /\ Float64.is_finite x = false).
Proof.
  intros Hid. destruct (respond_facts req) as [_ [Herr Hres]].
  apply Marshal_response_fails; [now rewrite respond_id | exact Herr | exact Hres].
Qed.

Lemma marshalled_fails (r : result Json.error json) :
  (exists e, marshalled r = Err e) <-> (exists e, r = Err e).
Proof.
  destruct r; simpl; split; intros [e' H]; try discriminate; now eexists.
Qed.

(** X7: dispatch returns an error -- which the transport answers with
    the status 500 -- exactly when the input parses and holds a request,
    alone or in a batch, whose result is a float that is not finite, an
    overflow or an undefined operation of the calculator: such a result
    cannot be written as JSON.  An input that does not parse is never
    answered with an error of dispatch. *)
Theorem X7_dispatch_fails_on_overflow (data : string) :
  (exists e, fst (HandleRequest data) = Err e) <->
  (exists m req x,
      ParseMessage data = Ok m /\
      In (Request req) (messages_of m) /\
      Result (respond req) = VFloat x /\
      Float64.is_finite x = false).
Proof.
  rewrite HandleRequest_reply.
  destruct (ParseMessage data) as [[req | notif | messages] | err] eqn:Hp.
  - rewrite marshalled_fails, respond_fails.
    2: { apply (parsed_request_finite data (Request req) req Hp). now left. }
    split.
    + intros [x [Hx Hinf]]. exists (Request req), req, x.
      repeat split; [now left | exact Hx | exact Hinf].
    + intros [m [req' [x [H [Hin [Hx Hinf]]]]]]. inversion H. subst m.
      destruct Hin as [Hin | []]. inversion Hin. subst req'. now exists x.
  - split; [intros [e H]; discriminate|].
    intros [m [req' [x [H [Hin _]]]]]. inversion H. subst m.
    destruct Hin as [Hin | []]. discriminate.
  - assert (Hall : (exists e, Marshal_batch (map respond (requests_of messages)) = Err e)
                   <-> (exists m req x,
                           Ok (Batch messages) = Ok m :> result JSONRPCError message /\
                           In (Request req) (messages_of m) /\
                           Result (respond req) = VFloat x /\
                           Float64.is_finite x = false)).
    { unfold Marshal_batch. rewrite marshalled_fails.
      assert (Hb : (exists e,
                       bind (Marshal_responses (map respond (requests_of messages)))
                            (fun ds => Ok (JArray ds)) = Err e)
                   <-> (exists e,
                           Marshal_responses (map respond (requests_of messages)) = Err e)).
      { destruct (Marshal_responses _); simpl; split; intros [e' H];
          try discriminate; now eexists. }
      rewrite Hb, Marshal_responses_fails. split.
      - intros [r [Hin He]]. apply in_map_iff in Hin. destruct Hin as [req [<- Hin]].
        apply requests_of_In in Hin.
        apply respond_fails in He.
        2: { apply (parsed_request_finite data (Batch messages) req Hp Hin). }
        destruct He as [x [Hx Hinf]]. exists (Batch messages), req, x. auto.
      - intros [m [req [x [H [Hin [Hx Hinf]]]]]]. inversion H. subst m.
        simpl in Hin. exists (respond req). split.
        + apply in_map. now apply requests_of_In.
        + apply respond_fails; [|now exists x].
          apply (parsed_request_finite data (Batch messages) req Hp Hin). }
    destruct (map respond (requests_of messages)) as [| r rest] eqn:E; [|exact Hall].
    split; [intros [e H]; discriminate|]. intros H. apply Hall in H.
    destruct H as [e He]. discriminate.
  - rewrite marshalled_fails.
    split; [|intros [m [req [x [H _]]]]; discriminate].
    intros He. exfalso.
    apply ParseMessage_parser_error in Hp. destruct Hp as [_ Hd].
    apply (Marshal_response_fails (CreateErrorResponse err VNil)) in He.
    + destruct He as [x [Hx _]]. discriminate.
    + reflexivity.
    + intros e' He'. inversion He'. subst e'. exact Hd.
    + reflexivity.
Qed.

Lemma X7_witness : exists e, fst (HandleRequest overflow_request) = Err e.
Proof.
  apply (proj2 (X7_dispatch_fails_on_overflow overflow_request)).
  exists (Request overflow_parsed), overflow_parsed, (S754_infinity false).
  repeat split; try (vm_compute; reflexivity). now left.
Defined.

(** ** The shape of what is written *)

Lemma Marshal_omitempty_nil (name : string) (v : value) (x : string * json)
  (ms : list (string * json)) :
  Marshal_interface_omitempty name v = Ok (x :: ms) -> v <> VNil.
Proof. intros H ->. discriminate. Qed.

Lemma Marshal_response_object (r : JSONRPCResponse) (d : json) :
  Response_JSONRPC r = JSONRPCVersion ->
  has_result r && has_error r = false ->
  Marshal_response r = Ok d ->
  response_object d.
Proof.
  intros Hv Hnot. unfold Marshal_response.
  destruct (Marshal_interface_omitempty "result" (Result r)) as [res |] eqn:Eres;
    [|discriminate].
  cbn [bind].
  match goal with
  | |- bind ?m _ = _ -> _ => destruct m as [err |] eqn:Eerr; [|discriminate]
  end.
  cbn [bind].
  destruct (Marshal_value (Response_ID r)) as [id |]; [|discriminate].
  cbn [bind]. intros H. inversion H. subst d. rewrite Hv.
  assert (Herr : err = [] \/ exists e, err = [("error"%string, e)] /\ has_error r = true).
  { unfold has_error. destruct (Error r) as [e |].
    - destruct (Marshal_error e); [|discriminate].
      inversion Eerr. right. eexists. split; reflexivity.
    - inversion Eerr. now left. }
  destruct (Marshal_omitempty_shape _ _ _ Eres) as [-> | [x ->]].
  - destruct Herr as [-> | [y [-> _]]];
      (split; [reflexivity | split; [eexists; reflexivity | left; reflexivity]]).
  - apply Marshal_omitempty_nil in Eres.
    assert (Hr : has_result r = true).
    { unfold has_result. destruct (Result r); congruence. }
    destruct Herr as [-> | [y [-> He]]].
    + split; [reflexivity | split; [eexists; reflexivity | right; reflexivity]].
    + rewrite Hr, He in Hnot. discriminate.
Qed.

Lemma Marshal_responses_inv (rs : list JSONRPCResponse) :
  forall ds,
    Marshal_responses rs = Ok ds ->
    Forall2 (fun r d => Marshal_response r = Ok d) rs ds.
Proof.
  induction rs as [| r rest IH]; intros ds; simpl.
  - intros H. inversion H. constructor.
  - destruct (Marshal_response r) as [d |] eqn:Er; [|discriminate]. cbn [bind].
    destruct (Marshal_responses rest) as [ds' |]; [|discriminate]. cbn [bind].
    intros H. inversion H. constructor; [exact Er | now apply IH].
Qed.

Lemma respond_object (req : JSONRPCRequest) (d : json) :
  Marshal_response (respond req) = Ok d -> response_object d.
Proof.
  apply Marshal_response_object; [apply respond_facts | apply respond_not_both].
Qed.

(** X8: the bytes that dispatch returns are, for an input that parsed
    as a batch, an array that is not empty, with one object for each
    request of the batch; for any other input -- a batch that did not
    parse too -- one object.  Each object has the member [jsonrpc] with
    the value "2.0" and a member [id], and not both a member [result] and
    a member [error]. *)
Theorem X8_shape_of_reply (data : string) (d : json) :
  fst (HandleRequest data) = Ok (Some d) ->
  match ParseMessage data with
  | Ok (Batch messages) =>
      exists ds,
        d = JArray ds /\ ds <> [] /\
        List.length ds = List.length (requests_of messages) /\
        Forall response_object ds
  | _ => response_object d
  end.
Proof.
  rewrite HandleRequest_reply.
  assert (Hm : forall r,
             (forall d', Marshal_response r = Ok d' -> response_object d') ->
             marshalled (Marshal_response r) = Ok (Some d) -> response_object d).
  { intros r Hr. destruct (Marshal_response r) as [d' |]; [|discriminate].
    intros H. inversion H. subst d'. now apply Hr. }
  destruct (ParseMessage data) as [[req | notif | messages] | err].
  - apply Hm. apply respond_object.
  - discriminate.
  - destruct (requests_of messages) as [| req reqs] eqn:E; [discriminate|].
    rewrite <- E. clear E.
    assert (Hall : Marshal_batch (map respond (requests_of messages)) = Ok (Some d) ->
                   exists ds,
                     d = JArray ds /\
                     List.length ds = List.length (requests_of messages) /\
                     Forall response_object ds).
    { unfold Marshal_batch.
      destruct (Marshal_responses _) as [ds |] eqn:Eds; [|discriminate].
      intros H. assert (Hd : d = JArray ds) by (inversion H; reflexivity).
      clear H. exists ds. split; [exact Hd|]. clear Hd.
      apply Marshal_responses_inv in Eds.
      remember (requests_of messages) as reqs' eqn:Er. clear Er.
      revert ds Eds. induction reqs' as [| r rest IH]; intros ds Eds; inversion Eds; subst.
      - split; [reflexivity | constructor].
      - destruct (IH _ H3) as [Hlen Hobj]. split; [simpl; congruence|].
        constructor; [|exact Hobj]. now apply (respond_object r). }
    destruct (map respond (requests_of messages)) as [| r rs] eqn:E.
    + discriminate.
    + intros H. destruct (Hall H) as [ds [-> [Hlen Hobj]]].
      exists ds. repeat split; [|exact Hlen | exact Hobj].
      intros ->. apply (f_equal (@List.length _)) in E.
      rewrite length_map, <- Hlen in E. discriminate.
  - apply Hm. intros d'. apply Marshal_response_object; reflexivity.
Qed.

Lemma X8_witness :
  response_object
    (JObject [("jsonrpc", JString "2.0");
              ("result", JNumber (Float (Float64.of_Z 40)));
              ("id", JNumber (Float (Float64.of_Z 1)))]%string).
Proof.
  assert (Hp : ParseMessage add_request = Ok (Request add_request_parsed))
    by (vm_compute; reflexivity).
  pose proof (X8_shape_of_reply add_request
                (JObject [("jsonrpc", JString "2.0");
                          ("result", JNumber (Float (Float64.of_Z 40)));
                          ("id", JNumber (Float (Float64.of_Z 1)))]%string)) as H.
  rewrite Hp in H. apply H. vm_compute. reflexivity.
Defined.

(** * Further properties of the calculator *)

(** X9: [Divide] refuses a divisor exactly when it is a zero, of
    either sign, and then logs nothing; any other divisor is divided by
    -- a subnormal number, an infinity -- and the line of the operation
    is logged. *)
Theorem X9_divide_refuses_exactly_zero (p : CalculatorParams) :
  Calculator.Divide p =
  match CalculatorParams_B p with
  | S754_zero _ => (Err (division_by_zero (CalculatorParams_A p)), [])
  | b =>
      (Ok (Float64.div (CalculatorParams_A p) b),
       ["Calculator: " ++ Strconv.FormatF (CalculatorParams_A p) ++ " / "
          ++ Strconv.FormatF b ++ " = "
          ++ Strconv.FormatF (Float64.div (CalculatorParams_A p) b)]%string)
  end.
Proof.
  unfold Calculator.Divide.
  destruct (CalculatorParams_B p) as [s | s | | s m e]; try reflexivity.
  - destruct s; reflexivity.
  - destruct s; reflexivity.
Qed.

(** X10: [Add] and [Multiply] return the same number when [a] and [b]
    are exchanged. *)
Theorem X10_add_and_multiply_commute (a b : float64) :
  fst (Calculator.Add {| CalculatorParams_A := a; CalculatorParams_B := b |}) =
  fst (Calculator.Add {| CalculatorParams_A := b; CalculatorParams_B := a |}) /\
  fst (Calculator.Multiply {| CalculatorParams_A := a; CalculatorParams_B := b |}) =
  fst (Calculator.Multiply {| CalculatorParams_A := b; CalculatorParams_B := a |}).
Proof.
  unfold Calculator.Add, Calculator.Multiply. cbn [fst seq Printf ret CalculatorParams_A CalculatorParams_B].
  unfold Float64.add, Float64.mul.
  split; f_equal.
  - destruct a as [sa | sa | | sa ma ea], b as [sb | sb | | sb mb eb]; simpl;
      try reflexivity; try (destruct sa, sb; reflexivity).
    rewrite (Z.min_comm eb ea), Z.add_comm. reflexivity.
  - destruct a as [sa | sa | | sa ma ea], b as [sb | sb | | sb mb eb]; simpl;
      try reflexivity; try (now rewrite xorb_comm).
    rewrite xorb_comm, Pos.mul_comm, Z.add_comm. reflexivity.
Qed.

(** X18: [Subtract] returns what [Add] returns for [a] and the
    opposite of [b], and a finite number minus itself is the zero of
    positive sign. *)
Theorem X18_subtract (a b : float64) :
  fst (Calculator.Subtract {| CalculatorParams_A := a; CalculatorParams_B := b |}) =
  fst (Calculator.Add {| CalculatorParams_A := a; CalculatorParams_B := SFopp b |}) /\
  (Float64.is_finite a = true ->
   fst (Calculator.Subtract {| CalculatorParams_A := a; CalculatorParams_B := a |}) =
   Ok Float64.zero).
Proof.
  unfold Calculator.Add, Calculator.Subtract.
  cbn [fst seq Printf ret CalculatorParams_A CalculatorParams_B].
  unfold Float64.add, Float64.sub, Float64.zero.
  split.
  - f_equal.
    destruct a as [sa | sa | | sa ma ea], b as [sb | sb | | sb mb eb]; simpl;
      try reflexivity; destruct sa, sb; reflexivity.
  - intros Hfin. f_equal.
    destruct a as [sa | sa | | sa ma ea]; simpl; try discriminate Hfin.
    + destruct sa; reflexivity.
    + rewrite Z.sub_diag. reflexivity.
Qed.

Lemma X18_witness :
  fst (Calculator.Subtract {| CalculatorParams_A := Float64.of_Z 7;
                              CalculatorParams_B := Float64.of_Z 7 |}) =
  Ok Float64.zero.
Proof.
  apply (proj2 (X18_subtract (Float64.of_Z 7) (Float64.of_Z 7))). reflexivity.
Defined.

(** * Further properties of the messages *)

Lemma to_value_nil (j : json) : to_value j = Ok VNil -> j = JNull.
Proof.
  destruct j as [| b | n | s | elems | members]; cbn [to_value];
    try reflexivity; try discriminate.
  - destruct (store_number n); discriminate.
  - match goal with |- bind ?m _ = _ -> _ => destruct m end; discriminate.
  - match goal with |- bind ?m _ = _ -> _ => destruct m end; discriminate.
Qed.

Lemma Marshal_value_null (v : value) : Marshal_value v = Ok JNull -> v = VNil.
Proof.
  destruct v as [| b | f | s | elems | entries]; cbn [Marshal_value];
    try reflexivity; try discriminate.
  - destruct (Float64.is_finite f); discriminate.
  - match goal with |- bind ?m _ = _ -> _ => destruct m end; discriminate.
  - match goal with |- bind ?m _ = _ -> _ => destruct m end; discriminate.
Qed.

Lemma ParseSingleMessage_id (data : bytes) (req : JSONRPCRequest) :
  ParseSingleMessage data = Ok (Request req) -> Request_ID req <> VNil.
Proof.
  unfold ParseSingleMessage, Unmarshal.
  destruct (read data) as [j |]; [|discriminate]. cbn [bind].
  destruct (decode_struct raw_fields raw_store j raw_zero) as [raw |] eqn:Ed;
    [|discriminate].
  assert (Hid : raw_ID raw <> Some JNull).
  { destruct j; try discriminate Ed.
    - inversion Ed. discriminate.
    - cbn [decode_struct] in Ed. rewrite (decode_raw_ID _ _ _ Ed).
      destruct (last_member "id" members) as [[| | | | |] |]; discriminate. }
  destruct (negb _); [discriminate|].
  destruct (String.eqb _ _); [discriminate|].
  destruct (match raw_Params raw with Some _ => _ | None => _ end); [|discriminate].
  destruct (raw_ID raw) as [id_raw |] eqn:Eid; [|discriminate].
  destruct (Unmarshal_interface (Raw id_raw)) as [id |] eqn:Ev; [|discriminate].
  unfold Unmarshal_interface, Unmarshal in Ev. cbn [read bind] in Ev.
  intros H. inversion H. subst req. cbn [Request_ID]. intros ->.
  apply to_value_nil in Ev. apply Hid. rewrite Ev. reflexivity.
Qed.

Lemma Forall2_In_r {A B : Type} (P : A -> B -> Prop) (l : list A) (l' : list B) (y : B) :
  Forall2 P l l' -> In y l' -> exists x, In x l /\ P x y.
Proof.
  induction 1 as [| a b l l' Hab _ IH]; simpl; [tauto|].
  intros [<- | Hin].
  - exists a. auto.
  - destruct (IH Hin) as [x [Hx Hp]]. exists x. auto.
Qed.

(** Each single message of what the parser returned is what the parser
    of a single message returned for the input or for an element of it. *)
Lemma parsed_single (data : string) (m x : message) :
  ParseMessage data = Ok m ->
  In x (messages_of m) ->
  exists bytes, ParseSingleMessage bytes = Ok x.
Proof.
  intros Hp Hin.
  destruct (ParseMessage_inv _ _ Hp)
    as [[rest [batch [messages [_ [_ [-> Hall]]]]]] | [_ Hs]].
  - destruct (Forall2_In_r _ _ _ _ Hall Hin) as [raw [_ H]]. now exists (Raw raw).
  - pose proof (ParseSingleMessage_well_formed _ _ Hs) as Hw.
    destruct m; simpl in Hin; try contradiction;
      (destruct Hin as [<- | []]; now exists (Text data)).
Qed.

(** X11: every request that the parser returns, alone or in a batch,
    has an id that is not [nil] and that can be written, and not as
    [null]: a response to a request never has the id [null]. *)
Theorem X11_request_id_is_not_null (data : string) (m : message) (req : JSONRPCRequest) :
  ParseMessage data = Ok m ->
  In (Request req) (messages_of m) ->
  Request_ID req <> VNil /\
  exists d, Marshal_value (Response_ID (respond req)) = Ok d /\ d <> JNull.
Proof.
  intros Hp Hin.
  assert (Hnil : Request_ID req <> VNil).
  { destruct (parsed_single _ _ _ Hp Hin) as [bytes Hb].
    now apply ParseSingleMessage_id in Hb. }
  split; [exact Hnil|]. rewrite respond_id.
  destruct (parsed_request_finite _ _ _ Hp Hin) as [_ Hfin].
  destruct (Marshal_value_finite _ Hfin) as [d Hd].
  exists d. split; [exact Hd|]. intros ->. now apply Marshal_value_null in Hd.
Qed.

Lemma X11_witness :
  Request_ID add_request_parsed <> VNil /\
  exists d, Marshal_value (Response_ID (respond add_request_parsed)) = Ok d /\ d <> JNull.
Proof.
  apply (X11_request_id_is_not_null add_request (Request add_request_parsed)).
  - vm_compute. reflexivity.
  - simpl. now left.
Defined.

Lemma parsed_message_finite (data : string) (m x : message) :
  ParseMessage data = Ok m ->
  In x (messages_of m) ->
  finite_value (snd (call_of x)) = true.
Proof.
  intros Hp Hin. apply ParseMessage_finite in Hp.
  assert (H : message_finite x = true).
  { destruct m as [r | n | ms]; simpl in Hin.
    - destruct Hin as [<- | []]. exact Hp.
    - destruct Hin as [<- | []]. exact Hp.
    - simpl in Hp. rewrite forallb_forall in Hp. now apply Hp. }
  destruct x as [r | n | ms]; simpl in *; [|exact H | reflexivity].
  now apply andb_true_iff in H.
Qed.

Lemma callCalculatorMethod_written
  (name : string) (method : CalculatorParams -> logged (result error float64))
  (params : value) (d : json) (e : JSONRPCError) :
  Calculator.MethodByName name = Some method ->
  Marshal_value params = Ok d ->
  fst (callCalculatorMethod name params) = Err (RPCError e) ->
  Data e <> VString "Cannot marshal parameters".
Proof.
  intros Hm HM. unfold callCalculatorMethod.
  destruct params; [intros H; inversion H; vm_compute; discriminate | | | | |];
    (rewrite HM;
     destruct (Unmarshal _ _ _) as [calcParams |];
     [|intros H; inversion H; vm_compute; discriminate];
     rewrite Hm, fst_seq;
     destruct (calculator_method_outcome name method calcParams Hm)
       as [[x ->] | [_ ->]];
     [discriminate | intros H; inversion H; simpl; discriminate]).
Qed.

Lemma callNotificationMethod_written (params : value) (d : json) (e : JSONRPCError) :
  Marshal_value params = Ok d ->
  fst (callNotificationMethod "Log" params) = Err (RPCError e) ->
  Data e <> VString "Cannot marshal parameters".
Proof.
  intros HM. unfold callNotificationMethod. cbn [String.eqb Ascii.eqb Bool.eqb].
  destruct params; [intros H; inversion H; vm_compute; discriminate | | | | |];
    (rewrite HM;
     destruct (Unmarshal _ _ _);
     [discriminate | intros H; inversion H; vm_compute; discriminate]).
Qed.

(** X12: the parameters of every message that the parser returns hold
    finite numbers only and can be written again, so that no method
    answers such a message with the error "Cannot marshal parameters". *)
Theorem X12_parameters_can_be_written (data : string) (m x : message) :
  ParseMessage data = Ok m ->
  In x (messages_of m) ->
  (exists d, Marshal_value (snd (call_of x)) = Ok d) /\
  forall e,
    fst (callMethod (fst (call_of x)) (snd (call_of x))) = Err (RPCError e) ->
    Data e <> VString "Cannot marshal parameters".
Proof.
  intros Hp Hin.
  destruct (Marshal_value_finite _ (parsed_message_finite _ _ _ Hp Hin)) as [d Hd].
  split; [now exists d|].
  intros e. unfold callMethod.
  destruct (String.eqb _ "add");
    [now apply (callCalculatorMethod_written "Add" Calculator.Add _ d)|].
  destruct (String.eqb _ "subtract");
    [now apply (callCalculatorMethod_written "Subtract" Calculator.Subtract _ d)|].
  destruct (String.eqb _ "multiply");
    [now apply (callCalculatorMethod_written "Multiply" Calculator.Multiply _ d)|].
  destruct (String.eqb _ "divide");
    [now apply (callCalculatorMethod_written "Divide" Calculator.Divide _ d)|].
  destruct (String.eqb _ "getInfo"); [discriminate|].
  destruct (String.eqb _ "log"); [now apply (callNotificationMethod_written _ d)|].
  intros H. inversion H. simpl. discriminate.
Qed.

Lemma X12_witness :
  (exists d, Marshal_value (snd (call_of (Request add_request_parsed))) = Ok d) /\
  forall e,
    fst (callMethod (fst (call_of (Request add_request_parsed)))
                    (snd (call_of (Request add_request_parsed)))) = Err (RPCError e) ->
    Data e <> VString "Cannot marshal parameters".
Proof.
  apply (X12_parameters_can_be_written add_request (Request add_request_parsed)).
  - vm_compute. reflexivity.
  - simpl. now left.
Defined.

(** * Further properties of [log] and of notifications *)

Lemma store_string_marshalled (v : value) (d : json) (old : string) :
  Marshal_value v = Ok d ->
  store_string d old =
  match v with
  | VString s => Ok s
  | VNil => Ok old
  | _ => Err (UnmarshalTypeError (describe d))
  end.
Proof.
  destruct v as [| b | f | s | l | m]; cbn [Marshal_value]; intros H.
  - inversion H. reflexivity.
  - inversion H. reflexivity.
  - destruct (Float64.is_finite f); inversion H. reflexivity.
  - inversion H. reflexivity.
  - match type of H with
    | context [bind ?m _] => destruct m; [|discriminate]
    end.
    inversion H. reflexivity.
  - match type of H with
    | context [bind ?m _] => destruct m; [|discriminate]
    end.
    inversion H. reflexivity.
Qed.

Lemma log_store_marshalled (k f : string) (v : value) (d : json) (p : LogParams) :
  find_field log_fields k = Some f ->
  Marshal_value v = Ok d ->
  log_store f d p =
  if string_or_nil v then Ok (log_entry k v p)
  else Err (UnmarshalTypeError (describe d)).
Proof.
  intros Hf Hm. unfold log_store, log_entry. rewrite Hf.
  rewrite (store_string_marshalled _ _ _ Hm).
  destruct v; simpl; try reflexivity; now destruct p.
Qed.

Lemma decode_members_log_marshalled (entries : list (string * value)) :
  forall ms p,
    Forall2 (fun e m => fst e = fst m /\ Marshal_value (snd e) = Ok (snd m)) entries ms ->
    (well_typed_log_params entries = true ->
     decode_members log_fields log_store ms p = Ok (log_params_after entries p)) /\
    (well_typed_log_params entries = false ->
     exists err, decode_members log_fields log_store ms p = Err err).
Proof.
  induction entries as [| [k v] rest IH]; intros ms p H;
    inversion H as [| e m l l' [Hk Hm] Hrest]; subst.
  - split; [reflexivity | discriminate].
  - destruct m as [k' d]. simpl in Hk, Hm. subst k'. simpl.
    destruct (find_field log_fields k) as [f |] eqn:Hf.
    + rewrite (log_store_marshalled _ _ _ _ _ Hf Hm).
      destruct (string_or_nil v) eqn:Hn; simpl.
      * apply IH. exact Hrest.
      * split; [discriminate | eexists; reflexivity].
    + replace (log_entry k v p) with p by (unfold log_entry; now rewrite Hf).
      apply IH. exact Hrest.
Qed.

(** What [log] does with parameters that [Marshal_value] writes (the
    parameters of the messages that the parser returns are such, and for
    them [Marshal_value] writes what [json.Marshal] does). *)
Lemma callMethod_log_marshalled (params : value) (d : json) :
  Marshal_value params = Ok d ->
  callMethod "log" params =
  match params with
  | VNil =>
      (Err (rpc_error InvalidParams "Invalid params"
              (js "Parameters required: {'message': string}")), [])
  | VMap entries =>
      if well_typed_log_params entries then
        (Ok VNil,
         ["Calculator Log: "
            ++ LogParams_Message (log_params_after entries log_zero)]%string)
      else
        (Err (rpc_error InvalidParams "Invalid params"
                (js "Expected parameters: {'message': string}")), [])
  | _ =>
      (Err (rpc_error InvalidParams "Invalid params"
              (js "Expected parameters: {'message': string}")), [])
  end.
Proof.
  intros HM.
  change (callMethod "log" params) with (callNotificationMethod "Log" params).
  unfold callNotificationMethod. cbn [String.eqb Ascii.eqb Bool.eqb].
  destruct params as [| b | f | str | elems | entries]; [reflexivity | | | | |];
    rewrite HM.
  - inversion HM. reflexivity.
  - cbn [Marshal_value] in HM. destruct (Float64.is_finite f); inversion HM. reflexivity.
  - inversion HM. reflexivity.
  - cbn [Marshal_value] in HM.
    match type of HM with
    | context [bind ?m _] => destruct m; [|discriminate]
    end.
    inversion HM. reflexivity.
  - destruct (Marshal_map_inv _ _ HM) as [ms [-> Hall]].
    unfold Unmarshal. cbn [read bind decode_struct].
    destruct (decode_members_log_marshalled entries ms log_zero Hall) as [Hok Herr].
    destruct (well_typed_log_params entries).
    + rewrite (Hok eq_refl). reflexivity.
    + destruct (Herr eq_refl) as [err ->]. reflexivity.
Qed.

(** X13: what the method [log] does for a message that the parser
    returned, alone or in a batch, by the parameters of the message.
    [nil] (no member [params], or [null]) is refused with "Parameters
    required"; an object in which every member matched to [message] --
    whatever the case of its letters -- is a string or [nil] makes one
    line of the log, with the last such string in the order of the keys,
    or the empty string when there is none, and [nil] is returned; any
    other value is refused with "Expected parameters", and nothing is
    logged. *)
Theorem X13_log_parameters (data : string) (m x : message) :
  ParseMessage data = Ok m ->
  In x (messages_of m) ->
  fst (call_of x) = "log"%string ->
  callMethod (fst (call_of x)) (snd (call_of x)) =
  match snd (call_of x) with
  | VNil =>
      (Err (rpc_error InvalidParams "Invalid params"
              (js "Parameters required: {'message': string}")), [])
  | VMap entries =>
      if well_typed_log_params entries then
        (Ok VNil,
         ["Calculator Log: "
            ++ LogParams_Message (log_params_after entries log_zero)]%string)
      else
        (Err (rpc_error InvalidParams "Invalid params"
                (js "Expected parameters: {'message': string}")), [])
  | _ =>
      (Err (rpc_error InvalidParams "Invalid params"
              (js "Expected parameters: {'message': string}")), [])
  end.
Proof.
  intros Hp Hin Hm. rewrite Hm.
  destruct (Marshal_value_finite _ (parsed_message_finite _ _ _ Hp Hin)) as [d Hd].
  exact (callMethod_log_marshalled _ d Hd).
Qed.

Lemma X13_witness :
  ParseMessage log_notification = Ok (Notification log_notification_parsed) /\
  callMethod "log" log_params_example = (Ok VNil, ["Calculator Log: first"]%string).
Proof.
  assert (Hp : ParseMessage log_notification = Ok (Notification log_notification_parsed))
    by (vm_compute; reflexivity).
  split; [exact Hp|].
  exact (X13_log_parameters log_notification (Notification log_notification_parsed)
           (Notification log_notification_parsed) Hp (or_introl eq_refl) eq_refl).
Defined.

Lemma snd_seq {A B : Type} (m : logged A) (k : A -> logged B) :
  snd (seq m k) = snd m ++ snd (k (fst m)).
Proof. unfold seq. destruct m as [a l1]. simpl. now destruct (k a). Qed.

(** X14: what dispatch logs for an input that parses as a
    notification: the input, the method, the lines of the method, and,
    when the method fails, one last line with the code and the message
    of the error -- the only trace of the failure, since no bytes are
    returned.  The data of the error is not logged. *)
Theorem X14_notification_failure_is_logged (data : string) (notif : JSONRPCNotification) :
  ParseMessage data = Ok (Notification notif) ->
  fst (HandleRequest data) = Ok None /\
  snd (HandleRequest data) =
    [("Received request: " ++ data)%string;
     ("Handling notification: " ++ Notification_Method notif)%string]
    ++ snd (callMethod (Notification_Method notif) (Notification_Params notif))
    ++ match fst (callMethod (Notification_Method notif) (Notification_Params notif)) with
       | Err (RPCError e) =>
           [("Notification error (ignored): JSON-RPC Error "
               ++ Strconv.Itoa (Code e) ++ ": " ++ Message e)%string]
       | _ => []
       end.
Proof.
  intros Hp. split.
  - rewrite HandleRequest_reply, Hp. reflexivity.
  - unfold HandleRequest. rewrite snd_seq, Hp, snd_seq.
    unfold handleNotification. rewrite snd_seq, snd_seq.
    pose proof (callMethod_outcome (Notification_Method notif)
                  (Notification_Params notif)) as Ho.
    cbn [Printf fst snd ret app].
    destruct (fst (callMethod _ _)) as [v | [e | msg]]; simpl in Ho |- *.
    + now rewrite !app_nil_r.
    + rewrite app_nil_r. reflexivity.
    + contradiction.
Qed.

Lemma X14_witness :
  fst (HandleRequest unknown_notification) = Ok None /\
  snd (HandleRequest unknown_notification) =
    [("Received request: " ++ unknown_notification)%string;
     "Handling notification: foo"%string;
     "Notification error (ignored): JSON-RPC Error -32601: Method not found"%string].
Proof.
  apply (X14_notification_failure_is_logged unknown_notification
           {| Notification_JSONRPC := "2.0"; Notification_Method := "foo";
              Notification_Params := VNil |}).
  vm_compute. reflexivity.
Defined.

(** * The transport *)

Lemma rootHandler_reached (r : HTTPRequest) (body : string) :
  HTTP_Method r = "POST"%string ->
  Contains (HTTP_ContentType r) "application/json" = true ->
  HTTP_Body r = Ok body ->
  rootHandler r =
  (response <~ HandleRequest body;;
   match response with
   | Err err =>
       Printf ("Error processing request: " ++ Json.Error err);;;
       ret (error_reply StatusInternalServerError
              (js "{'error': 'Internal server error'}"))
   | Ok None =>
       ret {| HTTP_Status := StatusNoContent;
              HTTP_Header := Header_Set "Content-Type" "application/json" cors_header;
              HTTP_Written := None |}
   | Ok (Some bytes) =>
       ret {| HTTP_Status := StatusOK;
              HTTP_Header := Header_Set "Content-Type" "application/json" cors_header;
              HTTP_Written := Some (RPCBytes bytes) |}
   end)%logged.
Proof.
  intros Hm Hc Hb. unfold rootHandler. rewrite Hm, Hc, Hb. reflexivity.
Qed.

(** X15: whatever the request, the handler of [/] answers with one of
    the statuses 200, 204, 400, 405 and 500 and with the three headers
    of CORS; every answer but the one to OPTIONS has the content type
    [application/json]; and nothing is written exactly in the answer to
    OPTIONS and in the answers of status 204. *)
Theorem X15_transport_statuses_and_headers (r : HTTPRequest) :
  In (HTTP_Status (fst (rootHandler r)))
     [StatusOK; StatusNoContent; StatusBadRequest; StatusMethodNotAllowed;
      StatusInternalServerError] /\
  Header_Get "Access-Control-Allow-Origin" (HTTP_Header (fst (rootHandler r)))
    = Some "*"%string /\
  Header_Get "Access-Control-Allow-Methods" (HTTP_Header (fst (rootHandler r)))
    = Some "POST, OPTIONS"%string /\
  Header_Get "Access-Control-Allow-Headers" (HTTP_Header (fst (rootHandler r)))
    = Some "Content-Type"%string /\
  (HTTP_Method r <> "OPTIONS"%string ->
   Header_Get "Content-Type" (HTTP_Header (fst (rootHandler r)))
     = Some "application/json"%string) /\
  (HTTP_Written (fst (rootHandler r)) = None <->
   HTTP_Method r = "OPTIONS"%string \/
   HTTP_Status (fst (rootHandler r)) = StatusNoContent).
Proof.
  unfold rootHandler.
  destruct (String.eqb_spec (HTTP_Method r) "OPTIONS") as [Ho | Ho].
  { cbn. repeat split; auto; tauto. }
  destruct (String.eqb (HTTP_Method r) "POST"); cbn [negb].
  2: { cbn. repeat split; auto; try discriminate.
       intros [H | H]; [contradiction | discriminate]. }
  destruct (Contains (HTTP_ContentType r) "application/json"); cbn [negb].
  2: { cbn. repeat split; auto; try discriminate.
       intros [H | H]; [contradiction | discriminate]. }
  destruct (HTTP_Body r) as [body | err].
  2: { cbn. repeat split; auto; try discriminate.
       intros [H | H]; [contradiction | discriminate]. }
  rewrite fst_seq.
  destruct (fst (HandleRequest body)) as [[d |] | e]; cbn;
    repeat split; auto 10; try discriminate;
    (intros [H | H]; [contradiction | discriminate]).
Qed.

(** X16: the handler of [/] passes a request on to the server exactly
    when it is a POST whose content type contains [application/json] and
    whose body can be read, and only then is anything logged.  Any other
    request is answered by the handler itself: OPTIONS with 200, another
    method with 405, another content type or a body that cannot be read
    with 400. *)
Theorem X16_transport_reaches_server (r : HTTPRequest) :
  (reaches_server r <-> snd (rootHandler r) <> []) /\
  (reaches_server r ->
   exists body,
     HTTP_Body r = Ok body /\
     exists lines, snd (rootHandler r) = snd (HandleRequest body) ++ lines) /\
  (~ reaches_server r ->
   HTTP_Status (fst (rootHandler r)) =
     if String.eqb (HTTP_Method r) "OPTIONS" then StatusOK
     else if String.eqb (HTTP_Method r) "POST" then StatusBadRequest
     else StatusMethodNotAllowed).
Proof.
  assert (Hreach : reaches_server r ->
                   exists body,
                     HTTP_Body r = Ok body /\
                     exists lines,
                       snd (rootHandler r) = snd (HandleRequest body) ++ lines).
  { intros [Hm [Hc [body Hb]]]. exists body. split; [exact Hb|].
    rewrite (rootHandler_reached r body Hm Hc Hb), snd_seq.
    eexists. reflexivity. }
  assert (Hlog : forall body, snd (HandleRequest body) <> []).
  { intros body. unfold HandleRequest. rewrite snd_seq. discriminate. }
  split; [|split; [exact Hreach|]].
  - split.
    + intros H. destruct (Hreach H) as [body [_ [lines ->]]].
      pose proof (Hlog body) as Hb. destruct (snd (HandleRequest body)); [congruence|].
      discriminate.
    + unfold rootHandler, reaches_server.
      destruct (String.eqb_spec (HTTP_Method r) "OPTIONS"); [intros H; now elim H|].
      destruct (String.eqb_spec (HTTP_Method r) "POST"); cbn [negb];
        [|intros H; now elim H].
      destruct (Contains (HTTP_ContentType r) "application/json"); cbn [negb];
        [|intros H; now elim H].
      destruct (HTTP_Body r) as [body | err]; [|intros H; now elim H].
      intros _. repeat split; [assumption | now exists body].
  - unfold rootHandler, reaches_server.
    destruct (String.eqb_spec (HTTP_Method r) "OPTIONS"); [reflexivity|].
    destruct (String.eqb_spec (HTTP_Method r) "POST"); cbn [negb]; [|reflexivity].
    destruct (Contains (HTTP_ContentType r) "application/json"); cbn [negb];
      [|reflexivity].
    destruct (HTTP_Body r) as [body | err]; [|reflexivity].
    intros H. exfalso. apply H. repeat split; [assumption | now exists body].
Qed.

Lemma X16_witness :
  HTTP_Status (fst (rootHandler get_request)) = StatusMethodNotAllowed.
Proof.
  apply (proj2 (proj2 (X16_transport_reaches_server get_request))).
  intros [H _]. discriminate H.
Defined.

Lemma parse_failure_bytes (e : JSONRPCError) :
  parser_error e ->
  exists text,
    Marshal_response (CreateErrorResponse e VNil) =
    Ok (JObject [("jsonrpc", JString "2.0");
                 ("error", JObject [("code", JNumber (Int (Code e)));
                                    ("message", JString (Message e));
                                    ("data", JString text)]);
                 ("id", JNull)]%string).
Proof.
  intros [_ [text Hd]]. exists text.
  unfold Marshal_response, Marshal_error. cbn. rewrite Hd. reflexivity.
Qed.

(** X17: how the handler of [/] answers a request that reaches the
    server.  The status is 500 exactly when dispatch returns an error and
    204 exactly when it returns no bytes; otherwise it is 200 and what is
    written is the bytes that dispatch returned.  A body that does not
    parse -- text that is not JSON, an invalid request -- is answered with
    the status 200 too, and with an object whose member [error] holds the
    code of the parser and whose member [id] is [null]. *)
Theorem X17_transport_status_of_dispatch (r : HTTPRequest) (body : string) :
  HTTP_Method r = "POST"%string ->
  Contains (HTTP_ContentType r) "application/json" = true ->
  HTTP_Body r = Ok body ->
  (HTTP_Status (fst (rootHandler r)) = StatusInternalServerError <->
   exists e, fst (HandleRequest body) = Err e) /\
  (HTTP_Status (fst (rootHandler r)) = StatusNoContent <->
   fst (HandleRequest body) = Ok None) /\
  (forall d,
      fst (HandleRequest body) = Ok (Some d) <->
      HTTP_Status (fst (rootHandler r)) = StatusOK /\
      HTTP_Written (fst (rootHandler r)) = Some (RPCBytes d)) /\
  (forall e,
      ParseMessage body = Err e ->
      HTTP_Status (fst (rootHandler r)) = StatusOK /\
      exists text,
        HTTP_Written (fst (rootHandler r)) =
        Some (RPCBytes
                (JObject [("jsonrpc", JString "2.0");
                          ("error", JObject [("code", JNumber (Int (Code e)));
                                             ("message", JString (Message e));
                                             ("data", JString text)]);
                          ("id", JNull)]%string))).
Proof.
  intros Hm Hc Hb. rewrite (rootHandler_reached r body Hm Hc Hb), fst_seq.
  assert (Hparse : forall e,
             ParseMessage body = Err e ->
             exists text,
               fst (HandleRequest body) =
               Ok (Some (JObject [("jsonrpc", JString "2.0");
                                  ("error", JObject [("code", JNumber (Int (Code e)));
                                                     ("message", JString (Message e));
                                                     ("data", JString text)]);
                                  ("id", JNull)]%string))).
  { intros e He. rewrite HandleRequest_reply, He.
    destruct (parse_failure_bytes e (ParseMessage_parser_error _ _ He)) as [text ->].
    now exists text. }
  destruct (fst (HandleRequest body)) as [[d |] | e]; cbn.
  - split; [split; [discriminate | intros [e H]; discriminate]|].
    split; [split; discriminate|].
    split.
    + intros d'. split.
      * intros H. inversion H. split; reflexivity.
      * intros [_ H]. inversion H. reflexivity.
    + intros e He. destruct (Hparse e He) as [text H]. inversion H.
      split; [reflexivity | now exists text].
  - split; [split; [discriminate | intros [e H]; discriminate]|].
    split; [split; reflexivity|].
    split.
    + intros d'. split; [discriminate | intros [H _]; discriminate H].
    + intros e He. destruct (Hparse e He) as [text H]. discriminate H.
  - split; [split; [intros _; now exists e | reflexivity]|].
    split; [split; discriminate|].
    split.
    + intros d'. split; [discriminate | intros [H _]; discriminate H].
    + intros e' He. destruct (Hparse e' He) as [text H]. discriminate H.
Qed.

Lemma X17_witness :
  HTTP_Status (fst (rootHandler (post_request version_1_request))) = StatusOK /\
  exists text,
    HTTP_Written (fst (rootHandler (post_request version_1_request))) =
    Some (RPCBytes
            (JObject [("jsonrpc", JString "2.0");
                      ("error", JObject [("code", JNumber (Int InvalidRequest));
                                         ("message", JString "Invalid Request");
                                         ("data", JString text)]);
                      ("id", JNull)]%string)).
Proof.
  apply (proj2 (proj2 (proj2
           (X17_transport_status_of_dispatch (post_request version_1_request)
              version_1_request eq_refl eq_refl eq_refl)))
           (invalid_request "jsonrpc field must be '2.0'")).
  vm_compute. reflexivity.
Defined.

(** * The methods that [getInfo] lists *)

(** X19: whatever its parameters, [getInfo] returns a map with a
    member [methods], and every name in that list is a method that the
    server knows: a call of it is not answered with the error "Method not
    found". *)
Theorem X19_listed_methods_are_known (params : value) :
  exists info methods,
    fst (callMethod "getInfo" params) = Ok (VMap info) /\
    In ("methods"%string, VSlice methods) info /\
    forall name,
      In (VString name) methods ->
      In name known_methods /\
      forall p e,
        fst (callMethod name p) = Err (RPCError e) -> Code e <> MethodNotFound.
Proof.
  eexists. eexists. split; [reflexivity|]. split; [simpl; tauto|].
  intros name Hin.
  assert (Hk : In name known_methods).
  { simpl in Hin. simpl.
    destruct Hin as [H | [H | [H | [H | []]]]]; inversion H; tauto. }
  split; [exact Hk|]. intros p e He.
  pose proof (callMethod_outcome name p) as Ho. rewrite He in Ho.
  destruct Ho as [_ [[_ [_ Hun]] | [[Hc _] | [Hc _]]]];
    [contradiction | rewrite Hc; discriminate | rewrite Hc; discriminate].
Qed.

(** * A batch and its requests sent alone *)

Lemma Forall2_map_l {A B C : Type} (f : A -> B) (P : B -> C -> Prop)
  (l : list A) (l' : list C) :
  Forall2 P (map f l) l' -> Forall2 (fun a c => P (f a) c) l l'.
Proof.
  revert l'. induction l as [| a l IH]; intros l' H; inversion H; subst;
    constructor; auto.
Qed.

(** X20: the array that dispatch returns for a batch holds, for each
    request of the batch and in their order, the very bytes that dispatch
    returns for an input that parses as that request alone. *)
Theorem X20_batch_reply_of_single_replies
  (data : string) (messages : list message) (ds : list json) :
  ParseMessage data = Ok (Batch messages) ->
  fst (HandleRequest data) = Ok (Some (JArray ds)) ->
  Forall2 (fun req d =>
             forall single,
               ParseMessage single = Ok (Request req) ->
               fst (HandleRequest single) = Ok (Some d))
          (requests_of messages) ds.
Proof.
  intros Hp. rewrite HandleRequest_reply, Hp.
  assert (Hall : Marshal_batch (map respond (requests_of messages)) = Ok (Some (JArray ds)) ->
                 Forall2 (fun req d => Marshal_response (respond req) = Ok d)
                         (requests_of messages) ds).
  { unfold Marshal_batch.
    destruct (Marshal_responses _) as [ds' |] eqn:Eds; [|discriminate].
    intros H. assert (Hd : ds' = ds) by (inversion H; reflexivity). subst ds'.
    apply Marshal_responses_inv in Eds. now apply Forall2_map_l in Eds. }
  intros H.
  assert (Hm : Forall2 (fun req d => Marshal_response (respond req) = Ok d)
                       (requests_of messages) ds).
  { destruct (map respond (requests_of messages)) eqn:E; [discriminate|].
    apply Hall. exact H. }
  clear -Hm. induction Hm as [| req d reqs ds Hd _ IH]; constructor; [|exact IH].
  intros single Hs. rewrite HandleRequest_reply, Hs, Hd. reflexivity.
Qed.

Lemma X20_witness :
  Forall2 (fun req d =>
             forall single,
               ParseMessage single = Ok (Request req) ->
               fst (HandleRequest single) = Ok (Some d))
          (requests_of mixed_batch_parsed)
          [JObject [("jsonrpc", JString "2.0");
                    ("result", JNumber (Float (Float64.of_Z 3)));
                    ("id", JNumber (Float (Float64.of_Z 1)))]%string;
           JObject [("jsonrpc", JString "2.0");
                    ("result", JNumber (Float (Float64.of_Z 12)));
                    ("id", JNumber (Float (Float64.of_Z 2)))]%string].
Proof.
  apply (X20_batch_reply_of_single_replies mixed_batch mixed_batch_parsed);
    vm_compute; reflexivity.
Defined.

(** * The responses to a batch *)

(** C6: for an input that parses as a batch, the responses that
    dispatch collects are the responses to the requests of the batch, one
    for each and in their order (each with the id of its request), a
    notification adding none.  With no response collected dispatch
    returns no bytes.  Otherwise it returns the array of the responses
    written, one for each request and in their order, when the result of
    every response can be written; when the result of one of them is a
    float that is not finite, [Marshal] fails, and dispatch returns its
    error and no bytes. *)
Theorem C6_batch_responses (data : string) (messages : list message) :
  ParseMessage data = Ok (Batch messages) ->
  fst (batch_loop messages []) = map respond (requests_of messages) /\
  map Response_ID (map respond (requests_of messages)) =
    map Request_ID (requests_of messages) /\
  fst (HandleRequest data) =
    match map respond (requests_of messages) with
    | [] => Ok None
    | responses => Marshal_batch responses
    end /\
  (requests_of messages = [] -> fst (HandleRequest data) = Ok None) /\
  (requests_of messages <> [] ->
   if forallb (fun req => result_finite (respond req)) (requests_of messages)
   then
     exists ds,
       fst (HandleRequest data) = Ok (Some (JArray ds)) /\
       Forall2 (fun req d => Marshal_response (respond req) = Ok d)
               (requests_of messages) ds
   else exists e, fst (HandleRequest data) = Err e).
Proof.
  intros H.
  assert (Hreply : fst (HandleRequest data) =
                   match map respond (requests_of messages) with
                   | [] => Ok None
                   | responses => Marshal_batch responses
                   end).
  { rewrite HandleRequest_reply, H. reflexivity. }
  assert (Hfails : forall req,
             In req (requests_of messages) ->
             (exists e, Marshal_response (respond req) = Err e) <->
             result_finite (respond req) = false).
  { intros req Hin. rewrite respond_fails.
    2: { apply (parsed_request_finite data (Batch messages) req H).
         now apply requests_of_In. }
    unfold result_finite. split.
    - intros [x [-> Hx]]. exact Hx.
    - destruct (Result (respond req)); try discriminate.
      intros Hx. eexists. split; [reflexivity | exact Hx]. }
  split; [apply batch_loop_responses|]. split.
  { rewrite map_map. apply map_ext. intros r. apply respond_id. }
  split; [exact Hreply|]. split.
  { intros E. rewrite Hreply, E. reflexivity. }
  intros Hne.
  assert (Hb : fst (HandleRequest data) =
               Marshal_batch (map respond (requests_of messages))).
  { rewrite Hreply. destruct (requests_of messages); [congruence | reflexivity]. }
  rewrite Hb. unfold Marshal_batch.
  destruct (Marshal_responses (map respond (requests_of messages))) as [ds | e] eqn:Eds.
  - assert (Hall : forallb (fun req => result_finite (respond req))
                           (requests_of messages) = true).
    { apply forallb_forall. intros req Hin.
      destruct (result_finite (respond req)) eqn:Ef; [reflexivity|]. exfalso.
      assert (Hf : exists e, Marshal_responses (map respond (requests_of messages)) = Err e).
      { apply Marshal_responses_fails. exists (respond req).
        split; [now apply in_map | now apply Hfails]. }
      destruct Hf as [e He]. congruence. }
    rewrite Hall. exists ds. split; [reflexivity|].
    apply Marshal_responses_inv in Eds. now apply Forall2_map_l in Eds.
  - assert (Hall : forallb (fun req => result_finite (respond req))
                           (requests_of messages) = false).
    { destruct (forallb _ (requests_of messages)) eqn:Ef; [|reflexivity]. exfalso.
      rewrite forallb_forall in Ef.
      destruct (proj1 (Marshal_responses_fails _) (ex_intro _ e Eds)) as [r [Hin Hr]].
      apply in_map_iff in Hin. destruct Hin as [req [<- Hin]].
      apply (Hfails req Hin) in Hr. rewrite (Ef req Hin) in Hr. discriminate. }
    rewrite Hall. exists e. reflexivity.
Qed.

Lemma C6_witness :
  ParseMessage mixed_batch = Ok (Batch mixed_batch_parsed) /\
  fst (HandleRequest mixed_batch) =
    Ok (Some (JArray
                [JObject [("jsonrpc", JString "2.0");
                          ("result", JNumber (Float (Float64.of_Z 3)));
                          ("id", JNumber (Float (Float64.of_Z 1)))];
                 JObject [("jsonrpc", JString "2.0");
                          ("result", JNumber (Float (Float64.of_Z 12)));
                          ("id", JNumber (Float (Float64.of_Z 2)))]]%string)).
Proof.
  assert (H : ParseMessage mixed_batch = Ok (Batch mixed_batch_parsed))
    by (vm_compute; reflexivity).
  split; [exact H|].
  etransitivity;
    [exact (proj1 (proj2 (proj2 (C6_batch_responses mixed_batch mixed_batch_parsed H))))|].
  vm_compute. reflexivity.
Defined.

(** The claim C6 as stated fails on a batch of two requests the second
    of which overflows: the batch parses, both requests get their
    response collected, and dispatch returns the error of [Marshal] and no
    array. *)
Lemma C6_counterexample : ~ answers_each_request overflow_batch.
Proof.
  intros H.
  assert (Hp : ParseMessage overflow_batch = Ok (Batch overflow_batch_parsed))
    by (vm_compute; reflexivity).
  specialize (H overflow_batch_parsed Hp).
  unfold overflow_batch_parsed in H. cbn [requests_of] in H.
  destruct H as [ds [H _]].
  assert (E : fst (HandleRequest overflow_batch) = Err (UnsupportedValueError "+Inf"))
    by (vm_compute; reflexivity).
  rewrite E in H. discriminate H.
Qed.
